(** * PHPark: a shallow embedding of the reconciliation core

    The Go packages of the tool ([internal/php], [internal/nginx],
    [internal/services], [internal/dns], [cmd/phppark]) are embedded as Rocq
    functions, one module per package.  Go strings are byte strings, so they
    are modelled by [string] (a list of 8-bit [ascii]); the outside world
    (file tree, child processes, persisted documents) is an explicit [World]
    value threaded through the effectful functions. *)

From Stdlib Require Import ZArith Lia Permutation Sorted Ascii.
From Stdlib Require String.
From stdpp Require Import base decidable option list gmap strings sorting.

(** Characters that cannot be typed inside a literal. *)
Definition LF : ascii := "010"%char.
Definition nl : string := String LF "".

(** ** Package [strings] of the Go standard library

    Only the functions the tool calls, with Go's byte-wise semantics. *)
Module GoStrings.

(** [strings.HasPrefix]. *)
Definition HasPrefix (s p : string) : bool := String.prefix p s.

(** [strings.HasSuffix]. *)
Definition HasSuffix (s p : string) : bool :=
  String.prefix (String.rev p) (String.rev s).

(** [strings.Contains]: [sub] occurs somewhere in [s]. *)
Fixpoint Contains (s sub : string) : bool :=
  String.prefix sub s ||
  match s with
  | EmptyString => false
  | String _ s' => Contains s' sub
  end.

(** [strings.Split(s, sep)] for a one-byte separator, which is what every
    call site passes (["."] and ["\n"]): the pieces between the separators,
    one more than there are separators. *)
Fixpoint Split (s : string) (sep : ascii) : list string :=
  match s with
  | EmptyString => [""]
  | String c s' =>
      if Ascii.eqb c sep then "" :: Split s' sep
      else match Split s' sep with
           | piece :: pieces => String c piece :: pieces
           | [] => [String c ""]
           end
  end.

(** [strings.Join]. *)
Fixpoint Join (elems : list string) (sep : string) : string :=
  match elems with
  | [] => ""
  | [e] => e
  | e :: rest => e +:+ sep +:+ Join rest sep
  end.

(** Drop the first [n] bytes. *)
Fixpoint drop (n : nat) (s : string) : string :=
  match n, s with
  | S k, String _ s' => drop k s'
  | _, _ => s
  end.

(** [strings.Replace(s, old, new, 1)] for a non-empty [old]: the leftmost
    occurrence is replaced, the rest is copied. *)
Fixpoint Replace1 (s old new : string) : string :=
  if String.prefix old s then new +:+ drop (String.length old) s
  else match s with
       | EmptyString => ""
       | String c s' => String c (Replace1 s' old new)
       end.

(** White space as Unicode defines it ([unicode.IsSpace]), in UTF-8:
    U+0009..U+000D and U+0020 are one byte; U+0085 and U+00A0 two bytes;
    U+1680, U+2000..U+200A, U+2028, U+2029, U+202F, U+205F and U+3000
    three bytes. *)
Definition space1 (a : ascii) : bool :=
  let n := Ascii.N_of_ascii a in
  ((9 <=? n) && (n <=? 13) || (n =? 32))%N.
Definition space2 (a b : ascii) : bool :=
  let '(x, y) := (Ascii.N_of_ascii a, Ascii.N_of_ascii b) in
  ((x =? 194) && ((y =? 133) || (y =? 160)))%N.
Definition space3 (a b c : ascii) : bool :=
  let '(x, y, z) := (Ascii.N_of_ascii a, Ascii.N_of_ascii b, Ascii.N_of_ascii c) in
  ((x =? 225) && (y =? 154) && (z =? 128)
   || (x =? 226) && (y =? 128)
      && ((128 <=? z) && (z <=? 138) || (z =? 168) || (z =? 169) || (z =? 175))
   || (x =? 226) && (y =? 129) && (z =? 159)
   || (x =? 227) && (y =? 128) && (z =? 128))%N.

(** [strings.TrimLeftFunc(s, unicode.IsSpace)]. *)
Fixpoint trimLeft (s : string) : string :=
  match s with
  | EmptyString => ""
  | String a s1 =>
      if space1 a then trimLeft s1
      else match s1 with
           | EmptyString => s
           | String b s2 =>
               if space2 a b then trimLeft s2
               else match s2 with
                    | EmptyString => s
                    | String c s3 => if space3 a b c then trimLeft s3 else s
                    end
           end
  end.

(** The same from the right, on the reversed string: the bytes of a
    multi-byte rune are met last byte first. *)
Fixpoint trimRightRev (r : string) : string :=
  match r with
  | EmptyString => ""
  | String c r1 =>
      if space1 c then trimRightRev r1
      else match r1 with
           | EmptyString => r
           | String b r2 =>
               if space2 b c then trimRightRev r2
               else match r2 with
                    | EmptyString => r
                    | String a r3 => if space3 a b c then trimRightRev r3 else r
                    end
           end
  end.

(** [strings.TrimSpace]. *)
Definition TrimSpace (s : string) : string :=
  String.rev (trimRightRev (String.rev (trimLeft s))).

(** Go's [a > b] on strings: byte-wise lexicographic order. *)
Definition gt (a b : string) : bool := String.ltb b a.

End GoStrings.

(** ** Package [path/filepath] (Unix) *)
Module Filepath.

(** One pass of [Clean] over the path elements, innermost last: [stack]
    holds the elements kept so far, last one first. *)
Fixpoint clean_go (rooted : bool) (stack : list string) (elems : list string)
  : list string :=
  match elems with
  | [] => rev stack
  | e :: rest =>
      if decide (e = "" \/ e = ".") then clean_go rooted stack rest
      else if decide (e = "..") then
        match stack with
        | top :: below =>
            if decide (top = "..") then clean_go rooted (e :: stack) rest
            else clean_go rooted below rest
        | [] => if rooted then clean_go rooted [] rest
                else clean_go rooted [e] rest
        end
      else clean_go rooted (e :: stack) rest
  end.

(** [filepath.Clean]: repeated separators collapse, [.] elements go, an
    inner [..] goes with the element before it, a [..] that begins a rooted
    path goes; the empty result is [.]. *)
Definition Clean (path : string) : string :=
  let rooted := GoStrings.HasPrefix path "/" in
  let body := GoStrings.Join (clean_go rooted [] (GoStrings.Split path "/")) "/" in
  if rooted then "/" +:+ body
  else if decide (body = "") then "." else body.

(** [filepath.Join]: leading empty elements are skipped, the rest is joined
    by the separator and cleaned. *)
Fixpoint Join (elem : list string) : string :=
  match elem with
  | [] => ""
  | e :: rest =>
      if decide (e = "") then Join rest
      else Clean (GoStrings.Join elem "/")
  end.

(** Everything up to and including the last separator, reversed input. *)
Fixpoint upto_sep_rev (r : string) : string :=
  match r with
  | EmptyString => ""
  | String c r' => if Ascii.eqb c "/" then r else upto_sep_rev r'
  end.

(** [filepath.Dir]. *)
Definition Dir (path : string) : string :=
  Clean (String.rev (upto_sep_rev (String.rev path))).

(** Rest of [filepath.Base] on the reversed path, trailing separators
    already gone: the last element. *)
Fixpoint last_elem_rev (r : string) : string :=
  match r with
  | EmptyString => ""
  | String c r' => if Ascii.eqb c "/" then "" else String c (last_elem_rev r')
  end.
Fixpoint strip_sep (r : string) : string :=
  match r with
  | String c r' => if Ascii.eqb c "/" then strip_sep r' else r
  | EmptyString => ""
  end.
(** [filepath.Base]. *)
Definition Base (path : string) : string :=
  if decide (path = "") then "."
  else let b := String.rev (last_elem_rev (strip_sep (String.rev path))) in
       if decide (b = "") then "/" else b.

End Filepath.

(** ** Go error values *)

(** [ErrNotExist] stands for the errors on which [os.IsNotExist] holds,
    [ErrSys] for every other failure of a system call or of a child process,
    [Errorf msg] for [fmt.Errorf] without a cause and [Wrap msg cause] for
    [fmt.Errorf] with the cause wrapped by [%w]. *)
Inductive error : Type :=
| ErrNotExist (path : string)
| ErrSys (what : string)
| Errorf (msg : string)
| Wrap (msg : string) (cause : error).

Definition IsNotExist (e : error) : bool :=
  match e with ErrNotExist _ => true | _ => false end.

(** [err.Error()]: [fmt.Errorf] with [%w] puts the text of the cause after
    the message and a colon.  The texts of the operating system's own errors
    are stand-ins. *)
Fixpoint error_string (e : error) : string :=
  match e with
  | ErrNotExist path => path +:+ ": no such file or directory"
  | ErrSys what => what
  | Errorf msg => msg
  | Wrap msg cause => msg +:+ ": " +:+ error_string cause
  end.

(** ** Package [internal/config]: the data the callers use *)
Module Config.

(** Modelled from the spec: the declaration of [Site] is not among the
    sources; the fields are those the command layer reads and writes
    (name, path, kind, runtime-version override, secured).  The field [Type]
    of the Go struct, ["link"] or ["park"], is [Type_] here, [Type] being
    reserved. *)
Record Site : Type := {
  Name : string;
  Path : string;
  Type_ : string;
  PHPVersion : string;
  Secured : bool;
}.

(** Modelled from the spec: an ordered collection of sites. *)
Record SiteRegistry : Type := { Sites : list Site }.

(** Modelled from the spec: the settings [Config] of the Go package (domain
    suffix, default runtime version, TLS by default), named [Config_] beside
    the module. *)
Record Config_ : Type := {
  Domain : string;
  DefaultPHP : string;
  UseHTTPS : bool;
}.

(** Modelled from the spec: the fixed on-disk locations. *)
Record Paths : Type := {
  Home : string;
  ConfigFile : string;
  SitesFile : string;
  Nginx : string;
  Certificates : string;
}.

#[global] Instance Site_eq_dec : EqDecision Site.
Proof. solve_decision. Defined.

(** Modelled from the spec: [find(name) -> Site?], the registry's lookup by
    name, which is not among the sources.  The first site of that name. *)
Fixpoint find_site (name : string) (sites : list Site) : option Site :=
  match sites with
  | [] => None
  | s :: rest => if decide (Name s = name) then Some s else find_site name rest
  end.
Definition FindSite (r : SiteRegistry) (name : string) : option Site :=
  find_site name (Sites r).

(** Modelled from the spec: [upsert(Site)], replace-by-name or append, which
    is not among the sources: a site whose name is present takes the place of
    the record of that name, any other site goes to the end. *)
Fixpoint add_site (site : Site) (sites : list Site) : list Site :=
  match sites with
  | [] => [site]
  | s :: rest =>
      if decide (Name s = Name site) then site :: rest
      else s :: add_site site rest
  end.
Definition AddSite (r : SiteRegistry) (site : Site) : SiteRegistry :=
  {| Sites := add_site site (Sites r) |}.

(** Modelled from the spec: [remove(name) -> fails(NotFound)], delete by
    name, which is not among the sources. *)
Fixpoint remove_site (name : string) (sites : list Site) : list Site :=
  match sites with
  | [] => []
  | s :: rest =>
      if decide (Name s = name) then rest else s :: remove_site name rest
  end.
Definition RemoveSite (r : SiteRegistry) (name : string) : SiteRegistry * bool :=
  ({| Sites := remove_site name (Sites r) |},
   bool_decide (is_Some (find_site name (Sites r)))).

(** Modelled from the spec: [list()], the sites in insertion order. *)
Definition ListSites (r : SiteRegistry) : list Site := Sites r.

End Config.

(** ** The outside world *)

(** What lives at a path. *)
Inductive node : Type :=
| NDir
| NFile (content : string)
| NLink (target : string).

#[global] Instance node_eq_dec : EqDecision node.
Proof. solve_decision. Defined.

(** The operations by which the tool changes the world.  [OpRun] is a child
    process started with [cmd.Run()], with what it is fed on standard input;
    [OpSaveSites] is the whole-document rewrite of the registry. *)
Inductive op : Type :=
| OpWriteFile (path content : string)
| OpMkdirAll (path : string)
| OpRemove (path : string)
| OpSymlink (oldname newname : string)
| OpRun (argv : list string) (stdin : string)
| OpSaveSites (r : Config.SiteRegistry).

(** The file tree maps a path, as it is spelled in a system call, to what
    is there.  [trace] lists the changing operations attempted so far, oldest
    first, each with whether it succeeded; [fault n o] tells whether the
    operation [o], attempted when [n] operations have been attempted before it,
    fails for a reason outside the model (permissions, a missing parent, a
    child process exiting non-zero).  Queries leave the world as it is. *)
Record World : Type := {
  fs : gmap string node;
  trace : list (op * bool);
  fault : nat -> op -> bool;
  procOut : list string -> option string;
  lookPath : string -> option string;
  getenv : string -> string;
  GOOS : string;
  sitesDoc : option Config.SiteRegistry;
  configDoc : option Config.Config_;
  pathsRes : option Config.Paths;
}.

Definition with_fs (w : World) (f : gmap string node) : World :=
  {| fs := f; trace := trace w; fault := fault w; procOut := procOut w;
     lookPath := lookPath w; getenv := getenv w; GOOS := GOOS w;
     sitesDoc := sitesDoc w; configDoc := configDoc w; pathsRes := pathsRes w |}.

Definition with_trace (w : World) (t : list (op * bool)) : World :=
  {| fs := fs w; trace := t; fault := fault w; procOut := procOut w;
     lookPath := lookPath w; getenv := getenv w; GOOS := GOOS w;
     sitesDoc := sitesDoc w; configDoc := configDoc w; pathsRes := pathsRes w |}.

Definition with_sites (w : World) (r : Config.SiteRegistry) : World :=
  {| fs := fs w; trace := trace w; fault := fault w; procOut := procOut w;
     lookPath := lookPath w; getenv := getenv w; GOOS := GOOS w;
     sitesDoc := Some r; configDoc := configDoc w; pathsRes := pathsRes w |}.

(** ** The monad of effectful Go code: a state monad over the world *)
Definition M (A : Type) : Type := World -> A * World.

Definition ret {A} (a : A) : M A := fun w => (a, w).
Definition bind {A B} (m : M A) (k : A -> M B) : M B :=
  fun w => let '(a, w') := m w in k a w'.

#[global] Instance M_ret : MRet M := @ret.
#[global] Instance M_bind : MBind M := fun A B k m => bind m k.

(** [if err := m; err != nil { return fmt.Errorf(msg+": %w", err) }; k] *)
Definition or_fail (m : M (option error)) (msg : string) (k : M (option error))
  : M (option error) :=
  r ← m;
  match r with
  | Some e => mret (Some (Wrap msg e))
  | None => k
  end.
Notation "'must' m 'orfail' msg ; k" := (or_fail m msg k)
  (at level 20, m at level 100, msg at level 0, k at level 200, only parsing).

(** ** Package [os] and [os/exec]: queries and operations on the world *)
Module Os.

(** Where the target of the symbolic link at [link] is looked up. *)
Definition link_target (link target : string) : string :=
  if GoStrings.HasPrefix target "/" then Filepath.Clean target
  else Filepath.Join [Filepath.Dir link; target].

(** Follow symbolic links from [p], at most [n] of them. *)
Fixpoint follow (n : nat) (f : gmap string node) (p : string) : option string :=
  match f !! p with
  | Some (NLink t) =>
      match n with
      | O => None
      | S k => follow k f (link_target p t)
      end
  | _ => Some p
  end.
Definition hops : nat := 40.

(** [os.Lstat]: the node at the path itself. *)
Definition Lstat (w : World) (p : string) : option node := fs w !! p.

(** [os.Stat]: the node after symbolic links; [None] is an error. *)
Definition Stat (w : World) (p : string) : option node :=
  q ← follow hops (fs w) p; fs w !! q.

Definition IsDir (n : node) : bool :=
  match n with NDir => true | _ => false end.
Definition IsSymlink (n : node) : bool :=
  match n with NLink _ => true | _ => false end.

(** [os.Readlink]; [""] on error, as the one caller drops the error. *)
Definition Readlink (w : World) (p : string) : string :=
  match fs w !! p with Some (NLink t) => t | _ => "" end.

(** [os.ReadFile]. *)
Definition ReadFile (w : World) (p : string) : error + string :=
  match follow hops (fs w) p with
  | None => inl (ErrSys "too many levels of symbolic links")
  | Some q =>
      match fs w !! q with
      | None => inl (ErrNotExist p)
      | Some (NFile c) => inr c
      | Some _ => inl (ErrSys "is a directory")
      end
  end.

(** Insertion of a name in a list of names kept in byte order. *)
Fixpoint insert_name (x : string) (l : list string) : list string :=
  match l with
  | [] => [x]
  | y :: l' => if String.leb x y then x :: l else y :: insert_name x l'
  end.

(** Names of the entries directly under the directory [q], in byte order,
    as [os.ReadDir] lists them. *)
Definition children (f : gmap string node) (q : string) : list string :=
  foldr insert_name []
    (omap (fun k => if decide (k <> q /\ Filepath.Dir k = q)
                    then Some (Filepath.Base k) else None)
          (map fst (map_to_list f))).

(** [os.ReadDir]; [None] is an error. *)
Definition ReadDir (w : World) (p : string) : option (list string) :=
  q ← follow hops (fs w) p;
  match fs w !! q with
  | Some NDir => Some (children (fs w) q)
  | _ => None
  end.

(** An operation is attempted: it is recorded, and unless it is made to
    fail from outside, its effect on the file tree takes place. *)
Definition attempt (o : op) (effect : gmap string node -> error + gmap string node)
  : M (option error) :=
  fun w =>
    if fault w (length (trace w)) o
    then (Some (ErrSys "operation failed"), with_trace w (trace w ++ [(o, false)]))
    else match effect (fs w) with
         | inl e => (Some e, with_trace w (trace w ++ [(o, false)]))
         | inr f => (None, with_trace (with_fs w f) (trace w ++ [(o, true)]))
         end.

(** Writing opens the path through symbolic links and replaces the
    content of the file found there. *)
Definition write_through (p c : string) (f : gmap string node)
  : error + gmap string node :=
  match follow hops f p with
  | None => inl (ErrSys "too many levels of symbolic links")
  | Some q =>
      match f !! q with
      | Some NDir => inl (ErrSys "is a directory")
      | _ => inr (<[q := NFile c]> f)
      end
  end.

(** [os.WriteFile]. *)
Definition WriteFile (p c : string) : M (option error) :=
  attempt (OpWriteFile p c) (write_through p c).

(** [os.Remove]: the node itself goes, a directory only when empty. *)
Definition remove_node (p : string) (f : gmap string node)
  : error + gmap string node :=
  match f !! p with
  | None => inl (ErrNotExist p)
  | Some NDir =>
      match children f p with
      | [] => inr (delete p f)
      | _ => inl (ErrSys "directory not empty")
      end
  | Some _ => inr (delete p f)
  end.
Definition Remove (p : string) : M (option error) :=
  attempt (OpRemove p) (remove_node p).

(** [os.Symlink]: fails when something is at [newname] already. *)
Definition Symlink (oldname newname : string) : M (option error) :=
  attempt (OpSymlink oldname newname)
    (fun f => match f !! newname with
              | Some _ => inl (ErrSys "file exists")
              | None => inr (<[newname := NLink oldname]> f)
              end).

(** The path and the directories above it, innermost first. *)
Fixpoint ancestors (n : nat) (p : string) : list string :=
  match n with
  | O => []
  | S k => if decide (Filepath.Dir p = p) then []
           else p :: ancestors k (Filepath.Dir p)
  end.

(** [os.MkdirAll]: nothing to do at a directory, an error at anything
    else; otherwise the path and the missing directories above it are made. *)
Definition mkdir_all (p : string) (f : gmap string node)
  : error + gmap string node :=
  match follow hops f p with
  | None => inl (ErrSys "too many levels of symbolic links")
  | Some q =>
      match f !! q with
      | Some NDir => inr f
      | Some _ => inl (ErrSys "not a directory")
      | None =>
          if existsb (fun a => match f !! a with
                               | Some (NFile _) => true
                               | _ => false
                               end) (ancestors (String.length q) q)
          then inl (ErrSys "not a directory")
          else inr (foldr (fun a g => match g !! a with
                                      | None => <[a := NDir]> g
                                      | Some _ => g
                                      end) f (ancestors (String.length q) q))
      end
  end.
Definition MkdirAll (p : string) : M (option error) :=
  attempt (OpMkdirAll p) (mkdir_all p).

(** What the child processes the tool starts do to the file tree:
    [tee] writes its input to the path, [rm -f] unlinks a path that is not
    a directory and is content with a missing one, [ln -sf] puts a symbolic
    link at the link name, replacing what is there, or inside it when the
    link name leads to a directory.  The service manager and the proxy
    binary do not touch the tree. *)
Definition command_effect (argv : list string) (stdin : string)
    (f : gmap string node) : error + gmap string node :=
  match argv with
  | ["sudo"; "tee"; p] => write_through p stdin f
  | ["sudo"; "rm"; "-f"; p] =>
      match f !! p with
      | Some NDir => inl (ErrSys "is a directory")
      | _ => inr (delete p f)
      end
  | ["sudo"; "ln"; "-sf"; target; link] =>
      match (q ← follow hops f link; f !! q) with
      | Some NDir =>
          let inside := Filepath.Join [link; Filepath.Base target] in
          match f !! inside with
          | Some NDir => inl (ErrSys "cannot overwrite directory")
          | _ => inr (<[inside := NLink target]> f)
          end
      | _ => inr (<[link := NLink target]> f)
      end
  | _ => inr f
  end.

(** [exec.Command(argv...)] with [Stdin] set, then [Run()]. *)
Definition RunStdin (argv : list string) (stdin : string) : M (option error) :=
  attempt (OpRun argv stdin) (command_effect argv stdin).
(** [exec.Command(argv...).Run()]. *)
Definition Run (argv : list string) : M (option error) := RunStdin argv "".

(** [exec.Command(argv...).Output()]: a query; [None] is an error. *)
Definition Output (w : World) (argv : list string) : option string :=
  procOut w argv.

End Os.

(** A query read inside effectful code. *)
Definition query {A} (f : World -> A) : M A := fun w => (f w, w).

(** ** Package [sort]

    [sort.Slice] on at most twelve elements is the insertion sort below
    (each element is swapped leftwards while it is less than its left
    neighbour); [prefix] is the part already sorted, last element first.  On
    longer slices Go switches to a pattern-defeating quicksort, whose result
    is again a permutation in which no element is less than its left
    neighbour.  The statements below rely on the result being a permutation,
    and evaluate the sort on two elements only. *)
Module Sort.
Section Slice.
Context {A : Type} (less : A -> A -> bool).

Fixpoint insert_left (x : A) (prefix : list A) : list A :=
  match prefix with
  | [] => [x]
  | y :: prefix' => if less x y then y :: insert_left x prefix' else x :: prefix
  end.

Definition Slice (l : list A) : list A :=
  rev (foldl (fun prefix x => insert_left x prefix) [] l).
End Slice.
End Sort.

(** ** Package [internal/php] *)
Module Php.

(** [version.go]: an installed PHP version. *)
Record PHPVersion : Type := {
  Version : string;
  FullPath : string;
  FPMSocket : string;
  IsDefault : bool;
}.

#[global] Instance PHPVersion_eq_dec : EqDecision PHPVersion.
Proof. solve_decision. Defined.

(** [\d] of Go's regular expressions: an ASCII digit. *)
Definition is_digit (c : ascii) : bool :=
  let n := Ascii.N_of_ascii c in ((48 <=? n) && (n <=? 57))%N.

(** The longest run of digits at the head, and the rest. *)
Fixpoint span_digits (s : string) : string * string :=
  match s with
  | EmptyString => ("", "")
  | String c s' =>
      if is_digit c
      then let '(d, r) := span_digits s' in (String c d, r)
      else ("", s)
  end.

(** A match of [PHP (\d+\.\d+)] that starts at the head of [s]: its
    group.  Each [\d+] is greedy, and giving digits back cannot help, as the
    byte after a shorter run is a digit, not the dot. *)
Definition match_here (s : string) : option string :=
  if String.prefix "PHP " s then
    let '(major, r) := span_digits (GoStrings.drop 4 s) in
    match major, r with
    | String _ _, String "." r' =>
        match span_digits r' with
        | (String c m, _) => Some (major +:+ "." +:+ String c m)
        | _ => None
        end
    | _, _ => None
    end
  else None.

(** [re.FindStringSubmatch(output)], then [matches[1]]: the group of the
    leftmost match. *)
Fixpoint find_version (s : string) : option string :=
  match match_here s with
  | Some v => Some v
  | None => match s with
            | EmptyString => None
            | String _ s' => find_version s'
            end
  end.

(** [GetPHPVersionFromBinary]. *)
Definition GetPHPVersionFromBinary (w : World) (phpPath : string) : error + string :=
  match Os.Output w [phpPath; "-v"] with
  | None => inl (ErrSys "exec")
  | Some output =>
      match find_version output with
      | None => inl (Errorf "could not parse PHP version")
      | Some v => inr v
      end
  end.

(** [FormatVersion]: the version in X.Y format. *)
Definition FormatVersion (version : string) : string :=
  match GoStrings.Split version "." with
  | p0 :: p1 :: _ => p0 +:+ "." +:+ p1
  | _ => version
  end.

(** [versionMap[version]] on a [map[string]bool]: a missing key reads as
    [false]. *)
Definition seen (versionMap : gmap string bool) (version : string) : bool :=
  default false (versionMap !! version).

(** The body of the inner loop of [detectLinuxPHP], for one directory
    entry. *)
Definition scan_entry (w : World) (searchPath : string)
    (st : list PHPVersion * gmap string bool) (name : string)
  : list PHPVersion * gmap string bool :=
  let '(versions, versionMap) := st in
  if GoStrings.HasPrefix name "php" && (3 <? String.length name) then
    let fullPath := Filepath.Join [searchPath; name] in
    match GetPHPVersionFromBinary w fullPath with
    | inl _ => st
    | inr version =>
        let version := FormatVersion version in
        if seen versionMap version then st
        else
          let fpmSocket := "/var/run/php/php" +:+ version +:+ "-fpm.sock" in
          (versions ++ [ {| Version := version; FullPath := fullPath;
                            FPMSocket := fpmSocket; IsDefault := false |} ],
           <[version := true]> versionMap)
    end
  else st.

(** The body of the outer loop, for one search path. *)
Definition scan_dir (w : World) (st : list PHPVersion * gmap string bool)
    (searchPath : string) : list PHPVersion * gmap string bool :=
  match Os.ReadDir w searchPath with
  | None => st
  | Some entries => foldl (scan_entry w searchPath) st entries
  end.

Definition searchPaths : list string := ["/usr/bin"; "/usr/local/bin"].

(** The first entry of that version is marked as the default. *)
Fixpoint mark_default (version : string) (versions : list PHPVersion)
  : list PHPVersion :=
  match versions with
  | [] => []
  | v :: rest =>
      if decide (Version v = version)
      then {| Version := Version v; FullPath := FullPath v;
              FPMSocket := FPMSocket v; IsDefault := true |} :: rest
      else v :: mark_default version rest
  end.

(** The comparison handed to [sort.Slice]. *)
Definition newer (a b : PHPVersion) : bool := GoStrings.gt (Version a) (Version b).

(** [detectLinuxPHP]; its error result is always [nil]. *)
Definition detectLinuxPHP (w : World) : list PHPVersion :=
  let '(versions, _) := foldl (scan_dir w) ([], ∅) searchPaths in
  let versions :=
    match lookPath w "php" with
    | Some defaultPath =>
        match GetPHPVersionFromBinary w defaultPath with
        | inr version => mark_default (FormatVersion version) versions
        | inl _ => versions
        end
    | None => versions
    end in
  Sort.Slice newer versions.

(** [ValidatePHPVersion]. *)
Definition ValidatePHPVersion (version : string) (availableVersions : list PHPVersion)
  : bool :=
  existsb (fun v => bool_decide (Version v = version)) availableVersions.

(** [GetDefaultVersion]: the first entry marked as default, else the first
    entry, else nothing. *)
Definition GetDefaultVersion (versions : list PHPVersion) : option PHPVersion :=
  match List.find IsDefault versions with
  | Some v => Some v
  | None => head versions
  end.

(** Child processes run one after the other, their results dropped. *)
Fixpoint run_each (cmds : list (list string)) : M unit :=
  match cmds with
  | [] => mret tt
  | cmd :: rest => Os.Run cmd;; run_each rest
  end.

(** The extension packages [InstallPHP] adds to the pool package. *)
Definition extensions (version : string) : list string :=
  ["php" +:+ version +:+ "-cli"; "php" +:+ version +:+ "-common";
   "php" +:+ version +:+ "-mysql"; "php" +:+ version +:+ "-curl";
   "php" +:+ version +:+ "-mbstring"; "php" +:+ version +:+ "-xml";
   "php" +:+ version +:+ "-zip"].

(** [InstallPHP]; what it prints is left out. *)
Definition InstallPHP (version : string) : M (option error) :=
  must Os.Run ["add-apt-repository"; "-y"; "ppa:ondrej/php"]
    orfail "failed to add PHP repository";
  must Os.Run ["apt-get"; "update"] orfail "failed to update packages";
  let packageName := "php" +:+ version +:+ "-fpm" in
  must Os.Run ["apt-get"; "install"; "-y"; packageName]
    orfail ("failed to install PHP " +:+ version);
  run_each (map (fun ext => ["apt-get"; "install"; "-y"; ext]) (extensions version));;
  mret None.

End Php.

(** ** Package [internal/nginx] *)
Module Nginx.

(** The fields [CreateSiteConfig] fills; the declaration itself lives with
    the template, outside the sources at hand. *)
Record SiteConfig : Type := {
  SiteName : string;
  Domain : string;
  ServerName : string;
  Root : string;
  SitePath : string;
  PHPVersion : string;
  PHPSocket : string;
  UseSSL : bool;
  ListenPort : Z;
  CertPath : string;
  KeyPath : string;
}.

(** [GetPHPSocket]. *)
Definition GetPHPSocket (phpVersion : string) : string :=
  let phpVersion := if decide (phpVersion = "") then "8.2" else phpVersion in
  "/var/run/php/php" +:+ phpVersion +:+ "-fpm.sock".

Definition publicDirs : list string := ["public"; "public_html"; "web"; "htdocs"].

(** The loop of [GetDocumentRoot] over the remaining names. *)
Fixpoint probe (w : World) (sitePath : string) (dirs : list string) : string :=
  match dirs with
  | [] => sitePath
  | dir :: rest =>
      let fullPath := Filepath.Join [sitePath; dir] in
      match Os.Stat w fullPath with
      | Some info => if Os.IsDir info then fullPath else probe w sitePath rest
      | None => probe w sitePath rest
      end
  end.

(** [GetDocumentRoot]. *)
Definition GetDocumentRoot (w : World) (sitePath : string) : string :=
  probe w sitePath publicDirs.

(** [CreateSiteConfig]. *)
Definition CreateSiteConfig (w : World)
    (siteName sitePath domain phpVersion : string) (useSSL : bool) : SiteConfig :=
  let phpVersion := if decide (phpVersion = "") then "8.2" else phpVersion in
  let serverName := siteName +:+ "." +:+ domain in
  let documentRoot := GetDocumentRoot w sitePath in
  let phpSocket := GetPHPSocket phpVersion in
  let certDir := "/home/" +:+ getenv w "USER" +:+ "/.phppark/certificates" in
  {| SiteName := siteName;
     Domain := domain;
     ServerName := serverName;
     Root := documentRoot;
     SitePath := sitePath;
     PHPVersion := phpVersion;
     PHPSocket := phpSocket;
     UseSSL := useSSL;
     ListenPort := 80;
     CertPath := if useSSL then Filepath.Join [certDir; siteName +:+ ".crt"] else "";
     KeyPath := if useSSL then Filepath.Join [certDir; siteName +:+ ".key"] else "" |}.

(** [WriteConfigFile]. *)
Definition WriteConfigFile (configPath content : string) : M (option error) :=
  let dir := Filepath.Dir configPath in
  must Os.MkdirAll dir orfail "failed to create directory";
  must Os.WriteFile configPath content orfail "failed to write config file";
  mret None.

End Nginx.

(** ** Package [internal/services]: [nginx.go] *)
Module Services.

(** [copyFile]. *)
Definition copyFile (src dst : string) : M (option error) :=
  input ← query (fun w => Os.ReadFile w src);
  match input with
  | inl err => mret (Some err)
  | inr input =>
      err ← Os.MkdirAll (Filepath.Dir dst);
      match err with
      | Some err => mret (Some err)
      | None => Os.WriteFile dst input
      end
  end.

(** [createSymlink]: what is at [dst] is removed first, whether or not that
    works. *)
Definition createSymlink (src dst : string) : M (option error) :=
  Os.Remove dst;;
  Os.Symlink src dst.

Definition cmd_nginx_test : list string := ["nginx"; "-t"].
Definition cmd_systemctl_reload : list string := ["systemctl"; "reload"; "nginx"].
Definition cmd_nginx_reload : list string := ["nginx"; "-s"; "reload"].

(** [TestNginxConfig]. *)
Definition TestNginxConfig : M (option error) :=
  must Os.Run cmd_nginx_test orfail "nginx -t failed";
  mret None.

(** [ReloadNginx]: the service manager first, the proxy binary itself when
    that fails. *)
Definition ReloadNginx : M (option error) :=
  err ← Os.Run cmd_systemctl_reload;
  match err with
  | Some _ =>
      must Os.Run cmd_nginx_reload orfail "failed to reload nginx";
      mret None
  | None => mret None
  end.

Definition sitesAvailable : string := "/etc/nginx/sites-available".
Definition sitesEnabled : string := "/etc/nginx/sites-enabled".

(** [DeployNginxConfig]. *)
Definition DeployNginxConfig (siteName configPath : string) : M (option error) :=
  let defaultSite := Filepath.Join [sitesEnabled; "default"] in
  let availablePath := Filepath.Join [sitesAvailable; siteName +:+ ".conf"] in
  let enabledPath := Filepath.Join [sitesEnabled; siteName +:+ ".conf"] in
  must copyFile configPath availablePath orfail "failed to copy config";
  must createSymlink availablePath enabledPath orfail "failed to create symlink";
  st ← query (fun w => Os.Stat w defaultSite);
  match st with
  | Some _ => Os.Remove defaultSite
  | None => mret None
  end;;
  must TestNginxConfig orfail "nginx config test failed";
  must ReloadNginx orfail "failed to reload nginx";
  mret None.

(** [os.Remove(path)] with [err != nil && !os.IsNotExist(err)] as the
    failure. *)
Definition remove_if_exists (path : string) : M (option error) :=
  err ← Os.Remove path;
  mret (match err with
        | Some e => if IsNotExist e then None else Some e
        | None => None
        end).

(** [RemoveNginxConfig]. *)
Definition RemoveNginxConfig (siteName : string) : M (option error) :=
  let availablePath := Filepath.Join [sitesAvailable; siteName +:+ ".conf"] in
  let enabledPath := Filepath.Join [sitesEnabled; siteName +:+ ".conf"] in
  must remove_if_exists enabledPath orfail "failed to remove enabled config";
  must remove_if_exists availablePath orfail "failed to remove available config";
  must TestNginxConfig orfail "nginx config test failed";
  must ReloadNginx orfail "failed to reload nginx";
  mret None.

(** [StartNginx]. *)
Definition StartNginx : M (option error) :=
  active ← Os.Run ["systemctl"; "is-active"; "nginx"];
  match active with
  | None => mret None
  | Some _ =>
      must Os.Run ["systemctl"; "start"; "nginx"] orfail "failed to start nginx";
      Os.Run ["systemctl"; "enable"; "nginx"];;
      mret None
  end.

(** [phpfpm.go]: [StartPHPFPM]. *)
Definition StartPHPFPM (version : string) : M (option error) :=
  let serviceName := "php" +:+ version +:+ "-fpm" in
  active ← Os.Run ["systemctl"; "is-active"; serviceName];
  match active with
  | None => mret None
  | Some _ =>
      must Os.Run ["systemctl"; "start"; serviceName]
        orfail ("failed to start " +:+ serviceName);
      Os.Run ["systemctl"; "enable"; serviceName];;
      mret None
  end.

(** The version number in an entry such as ["PHP 8.2"]; an entry without a
    space is the version itself. *)
Definition version_of_entry (version : string) : string :=
  match GoStrings.Split version " " with
  | _ :: p1 :: _ => p1
  | _ => version
  end.

(** The loop of [EnsurePHPFPMRunning]: [errors] collects the texts of the
    failures so far. *)
Fixpoint ensure_each (versions : list string) (errors : list string)
  : M (list string) :=
  match versions with
  | [] => mret errors
  | version :: rest =>
      err ← StartPHPFPM (version_of_entry version);
      ensure_each rest (match err with
                        | Some e => errors ++ [error_string e]
                        | None => errors
                        end)
  end.

(** [EnsurePHPFPMRunning]. *)
Definition EnsurePHPFPMRunning (versions : list string) : M (option error) :=
  errors ← ensure_each versions [];
  mret (if 0 <? length errors
        then Some (Errorf ("PHP-FPM errors: " +:+ GoStrings.Join errors "; "))
        else None).

End Services.

(** ** Package [internal/dns] *)
Module Dns.

Definition phpParkDnsmasqConf : string := "/etc/dnsmasq.d/phppark.conf".
Definition resolvedConf : string := "/etc/systemd/resolved.conf".
Definition systemdResolveResolvConf : string := "/run/systemd/resolve/resolv.conf".
Definition resolvedStubSymlink : string := "/run/systemd/resolve/stub-resolv.conf".
Definition etcResolvConf : string := "/etc/resolv.conf".

(** [CheckSystemdResolvedConflict]. *)
Definition CheckSystemdResolvedConflict (w : World) : bool :=
  match Os.Output w ["systemctl"; "is-active"; "systemd-resolved"] with
  | None => false
  | Some output => bool_decide (GoStrings.TrimSpace output = "active")
  end.

(** [IsSystemdResolvedStubDisabled]. *)
Definition IsSystemdResolvedStubDisabled (w : World) : bool :=
  bool_decide (is_Some (Os.Stat w phpParkDnsmasqConf)).

(** [buildDnsmasqUpstreamConf]. *)
Definition buildDnsmasqUpstreamConf (w : World) : string :=
  match Os.Stat w systemdResolveResolvConf with
  | Some _ => "# Managed by PHPark" +:+ nl +:+ "resolv-file="
              +:+ systemdResolveResolvConf +:+ nl
  | None => "# Managed by PHPark" +:+ nl +:+ "server=8.8.8.8" +:+ nl
            +:+ "server=1.1.1.1" +:+ nl
  end.

(** A line that sets the directive, leading white space aside. *)
Definition is_directive (line : string) : bool :=
  GoStrings.HasPrefix (GoStrings.TrimSpace line) "DNSStubListener=".

(** The middle of [setDNSStubListener]: the new content of the resolver's
    configuration, from the setting and the content read. *)
Definition stub_listener_content (value content : string) : string :=
  if decide (value = "") then
    let lines := GoStrings.Split content LF in
    GoStrings.Join (filter (fun line => is_directive line = false) lines) nl
  else
    let newSetting := "DNSStubListener=" +:+ value in
    if GoStrings.Contains content "DNSStubListener=" then
      let lines := GoStrings.Split content LF in
      GoStrings.Join
        (map (fun line => if is_directive line then newSetting else line) lines) nl
    else if GoStrings.Contains content "[Resolve]" then
      GoStrings.Replace1 content "[Resolve]" ("[Resolve]" +:+ nl +:+ newSetting)
    else
      let content :=
        if bool_decide (content <> "") && negb (GoStrings.HasSuffix content nl)
        then content +:+ nl else content in
      content +:+ nl +:+ "[Resolve]" +:+ nl +:+ newSetting +:+ nl.

(** [setDNSStubListener]: a missing file reads as empty. *)
Definition setDNSStubListener (value : string) : M (option error) :=
  data ← query (fun w => Os.ReadFile w resolvedConf);
  let content :=
    match data with
    | inl err => if IsNotExist err then inr ""
                 else inl (Wrap ("failed to read " +:+ resolvedConf) err)
    | inr data => inr data
    end in
  match content with
  | inl err => mret (Some err)
  | inr content =>
      must Os.RunStdin ["sudo"; "tee"; resolvedConf] (stub_listener_content value content)
        orfail ("failed to write " +:+ resolvedConf);
      mret None
  end.

Definition cmd_restart_resolved : list string :=
  ["sudo"; "systemctl"; "restart"; "systemd-resolved"].

(** [DisableSystemdResolvedStub]. *)
Definition DisableSystemdResolvedStub : M (option error) :=
  must setDNSStubListener "no" orfail "failed to configure systemd-resolved";
  must Os.Run cmd_restart_resolved orfail "failed to restart systemd-resolved";
  upstreamConf ← query buildDnsmasqUpstreamConf;
  must Os.RunStdin ["sudo"; "tee"; phpParkDnsmasqConf] upstreamConf
    orfail "failed to write dnsmasq upstream config";
  info ← query (fun w => Os.Lstat w etcResolvConf);
  match info with
  | Some info =>
      if Os.IsSymlink info then
        target ← query (fun w => Os.Readlink w etcResolvConf);
        if GoStrings.Contains target "systemd" then
          let content := "# Managed by PHPark" +:+ nl +:+ "nameserver 127.0.0.1" +:+ nl in
          must Os.RunStdin ["sudo"; "tee"; etcResolvConf] content
            orfail "failed to update /etc/resolv.conf";
          mret None
        else mret None
      else mret None
  | None => mret None
  end.

(** [RevertSystemdResolvedStub]. *)
Definition RevertSystemdResolvedStub : M (option error) :=
  must setDNSStubListener "" orfail "failed to revert resolved.conf";
  must Os.Run cmd_restart_resolved orfail "failed to restart systemd-resolved";
  Os.Run ["sudo"; "rm"; "-f"; phpParkDnsmasqConf];;
  Os.Run ["sudo"; "rm"; "-f"; etcResolvConf];;
  must Os.Run ["sudo"; "ln"; "-sf"; resolvedStubSymlink; etcResolvConf]
    orfail "failed to restore /etc/resolv.conf";
  mret None.

(** The fragment that maps the base domain to the loopback address. *)
Definition domainConf (domain : string) : string := "/etc/dnsmasq.d/" +:+ domain.

(** [setupLinuxDNS]. *)
Definition setupLinuxDNS (domain : string) : M (option error) :=
  found ← query (fun w => lookPath w "dnsmasq");
  match found with
  | None => mret (Some (Errorf
              "dnsmasq not installed. Install with: sudo apt install dnsmasq"))
  | Some _ =>
      let configPath := domainConf domain in
      let content := "address=/." +:+ domain +:+ "/127.0.0.1" +:+ nl in
      must Os.RunStdin ["sudo"; "tee"; configPath] content
        orfail "failed to create dnsmasq config";
      must Os.Run ["sudo"; "systemctl"; "restart"; "dnsmasq"]
        orfail "failed to restart dnsmasq";
      mret None
  end.

(** [removeLinuxDNS]: a failure of the revert is reported, not returned. *)
Definition removeLinuxDNS (domain : string) : M (option error) :=
  let configPath := domainConf domain in
  must Os.Run ["sudo"; "rm"; "-f"; configPath]
    orfail "failed to remove dnsmasq config";
  disabled ← query IsSystemdResolvedStubDisabled;
  (if (disabled : bool) then RevertSystemdResolvedStub else mret None);;
  Os.Run ["sudo"; "systemctl"; "restart"; "dnsmasq"];;
  mret None.

(** [checkLinuxDNS]; its error result is always [nil]. *)
Definition checkLinuxDNS (w : World) (domain : string) : bool :=
  bool_decide (is_Some (Os.Stat w (domainConf domain))).

End Dns.

(** ** Package [internal/ssl]: the files of a certificate *)
Module Ssl.

(** [CertificateExists]. *)
Definition CertificateExists (w : World) (siteName certDir : string) : bool :=
  let certPath := Filepath.Join [certDir; siteName +:+ ".crt"] in
  let keyPath := Filepath.Join [certDir; siteName +:+ ".key"] in
  bool_decide (is_Some (Os.Stat w certPath)) && bool_decide (is_Some (Os.Stat w keyPath)).

(** [RemoveCertificate]. *)
Definition RemoveCertificate (siteName certDir : string) : M (option error) :=
  let certPath := Filepath.Join [certDir; siteName +:+ ".crt"] in
  let keyPath := Filepath.Join [certDir; siteName +:+ ".key"] in
  must Services.remove_if_exists certPath orfail "failed to remove certificate";
  must Services.remove_if_exists keyPath orfail "failed to remove key";
  mret None.

End Ssl.

(** ** Package [internal/config]: the persisted documents *)
Module ConfigStore.

(** Modelled from the spec: [load() -> Registry | fails(IOError, ParseError)],
    which is not among the sources; the whole document is read, and a missing
    or malformed one is an error. *)
Definition LoadSites (w : World) : error + Config.SiteRegistry :=
  match sitesDoc w with
  | Some r => inr r
  | None => inl (ErrSys "cannot load the site registry")
  end.

(** Modelled from the spec: [save(Registry) -> fails(IOError)], the
    whole-document rewrite, which is not among the sources. *)
Definition SaveSites (r : Config.SiteRegistry) : M (option error) :=
  fun w =>
    let o := OpSaveSites r in
    if fault w (length (trace w)) o
    then (Some (ErrSys "operation failed"), with_trace w (trace w ++ [(o, false)]))
    else (None, with_sites (with_trace w (trace w ++ [(o, true)])) r).

(** Modelled from the spec: [load() -> Config | fails(IOError, ParseError)]. *)
Definition LoadConfig (w : World) : error + Config.Config_ :=
  match configDoc w with
  | Some c => inr c
  | None => inl (ErrSys "cannot load the configuration")
  end.

(** Modelled from the spec: the path layout, resolved or failing. *)
Definition GetPaths (w : World) : error + Config.Paths :=
  match pathsRes w with
  | Some p => inr p
  | None => inl (ErrSys "cannot resolve the home directory")
  end.

End ConfigStore.

(** ** The command layer: [unlink] *)
Module Main.

(** [runUnlink]; what it prints is left out. *)
Definition runUnlink (siteName : string) : M (option error) :=
  sites ← query ConfigStore.LoadSites;
  match sites with
  | inl err => mret (Some (Wrap "failed to load sites" err))
  | inr sites =>
      match Config.FindSite sites siteName with
      | None => mret (Some (Errorf ("site '" +:+ siteName +:+ "' not found")))
      | Some site =>
          cfg ← query ConfigStore.LoadConfig;
          match cfg with
          | inl err => mret (Some (Wrap "failed to load config" err))
          | inr cfg =>
              paths ← query ConfigStore.GetPaths;
              match paths with
              | inl err => mret (Some err)
              | inr paths =>
                  let configPath :=
                    Filepath.Join [Config.Nginx paths; siteName +:+ ".conf"] in
                  must Services.remove_if_exists configPath
                    orfail "failed to remove config";
                  goos ← query GOOS;
                  (if decide (goos = "linux")
                   then Services.RemoveNginxConfig siteName
                   else mret None);;
                  let sites := (Config.RemoveSite sites siteName).1 in
                  must ConfigStore.SaveSites sites orfail "failed to save sites";
                  mret None
              end
          end
      end
  end.

End Main.

(** * Vocabulary of the statements *)

(** The path exists as a directory: [os.Stat] succeeds and [IsDir] holds. *)
Definition exists_as_dir (w : World) (p : string) : bool :=
  match Os.Stat w p with
  | Some info => Os.IsDir info
  | None => false
  end.

(** A world in which nothing has been attempted yet, nothing fails from
    outside, no child process answers and no document is stored. *)
Definition quiet_world (f : gmap string node) : World :=
  {| fs := f; trace := []; fault := fun _ _ => false;
     procOut := fun _ => None; lookPath := fun _ => None;
     getenv := fun _ => ""; GOOS := "linux";
     sitesDoc := None; configDoc := None; pathsRes := None |}.

(** The registries the tool can hold: the empty one of the installation,
    and what insertion and removal make of them. *)
Inductive reachable : Config.SiteRegistry -> Prop :=
| reachable_empty : reachable {| Config.Sites := [] |}
| reachable_add r s : reachable r -> reachable (Config.AddSite r s)
| reachable_remove r n : reachable r -> reachable (Config.RemoveSite r n).1.

Definition site_names (r : Config.SiteRegistry) : list string :=
  map Config.Name (Config.Sites r).

Definition blog_site : Config.Site :=
  {| Config.Name := "blog"; Config.Path := "/home/u/sites/blog";
     Config.Type_ := "link"; Config.PHPVersion := ""; Config.Secured := false |}.
Definition blog_site_secured : Config.Site :=
  {| Config.Name := "blog"; Config.Path := "/home/u/sites/blog";
     Config.Type_ := "link"; Config.PHPVersion := "8.3"; Config.Secured := true |}.
Definition shop_site : Config.Site :=
  {| Config.Name := "shop"; Config.Path := "/home/u/sites/shop";
     Config.Type_ := "park"; Config.PHPVersion := ""; Config.Secured := false |}.
Definition two_sites : Config.SiteRegistry :=
  {| Config.Sites := [shop_site; blog_site] |}.

(** A world whose stored registry is [r]. *)
Definition world_with_sites (r : Config.SiteRegistry) : World :=
  with_sites (quiet_world ∅) r.

(** The operations attempted between the world [w] and a later world. *)
Definition since (w w' : World) : list (op * bool) :=
  drop (length (trace w)) (trace w').

(** An invocation of the proxy's syntax check, [nginx -t]. *)
Definition is_validation (e : op * bool) : bool :=
  match e.1 with
  | OpRun argv _ => bool_decide (argv = Services.cmd_nginx_test)
  | _ => false
  end.

(** An invocation of a reload, by the service manager or by the proxy
    binary. *)
Definition is_reload (e : op * bool) : bool :=
  match e.1 with
  | OpRun argv _ =>
      bool_decide (argv = Services.cmd_systemctl_reload)
      || bool_decide (argv = Services.cmd_nginx_reload)
  | _ => false
  end.

(** What a computation adds to the trace, related to its result. *)
Definition emits {A} (m : M A) (P : A -> list (op * bool) -> Prop) : Prop :=
  forall w, exists seg, trace (m w).2 = trace w ++ seg /\ P (m w).1 seg.

(** Neither a syntax check nor a reload. *)
Definition quiet (seg : list (op * bool)) : Prop :=
  Forall (fun e => is_validation e = false /\ is_reload e = false) seg.

(** The three ways a deployment can go: it stops before the syntax check;
    the syntax check fails and ends it with an error; the syntax check
    succeeds and the reload follows. *)
Definition deploy_shape (err : option error) (seg : list (op * bool)) : Prop :=
  exists q, quiet q /\
    ((seg = q /\ err <> None)
     \/ (seg = q ++ [(OpRun Services.cmd_nginx_test "", false)] /\ err <> None)
     \/ (exists rl, seg = q ++ (OpRun Services.cmd_nginx_test "", true) :: rl
                    /\ Forall (fun e => is_validation e = false) rl)).

(** The byte does not occur in the string. *)
Fixpoint absent (sep : ascii) (s : string) : Prop :=
  match s with
  | EmptyString => True
  | String c s' => c <> sep /\ absent sep s'
  end.

(** What the detector guarantees of each entry: a version that is not empty
    and in two-component form already, and the socket path of the fixed
    naming convention. *)
Definition well_formed (e : Php.PHPVersion) : Prop :=
  Php.Version e <> ""
  /\ Php.FormatVersion (Php.Version e) = Php.Version e
  /\ Php.FPMSocket e = "/var/run/php/php" +:+ Php.Version e +:+ "-fpm.sock".

(** The state of the scan is consistent: the versions found are pairwise
    distinct, the map holds exactly them, and each entry is well formed. *)
Definition scan_inv (st : list Php.PHPVersion * gmap string bool) : Prop :=
  NoDup (map Php.Version st.1)
  /\ (forall v, Php.seen st.2 v = true <-> v ∈ map Php.Version st.1)
  /\ Forall well_formed st.1.

(** The number a run of decimal digits denotes, after [acc]. *)
Fixpoint decimal (acc : N) (s : string) : option N :=
  match s with
  | EmptyString => Some acc
  | String c s' =>
      if Php.is_digit c
      then decimal (acc * 10 + (Ascii.N_of_ascii c - 48)) s'
      else None
  end.

(** Major and minor number of a two-component version. *)
Definition version_number (v : string) : option (N * N) :=
  match GoStrings.Split v "." with
  | [String a x; String b y] =>
      match decimal 0 (String a x), decimal 0 (String b y) with
      | Some major, Some minor => Some (major, minor)
      | _, _ => None
      end
  | _ => None
  end.

(** [a] is at least as new as [b]. *)
Definition number_ge (a b : N * N) : Prop :=
  (b.1 < a.1 \/ (a.1 = b.1 /\ b.2 <= a.2))%N.

(** Newest first under numeric comparison of major.minor. *)
Definition newest_first_numeric (l : list Php.PHPVersion) : Prop :=
  forall i j a b x y,
    i < j -> l !! i = Some a -> l !! j = Some b ->
    version_number (Php.Version a) = Some x ->
    version_number (Php.Version b) = Some y ->
    number_ge x y.

(** The entries the detector makes of PHP 8.2 and PHP 10.0 under
    [/usr/bin]. *)
Definition php82_entry : Php.PHPVersion :=
  {| Php.Version := "8.2"; Php.FullPath := "/usr/bin/php8.2";
     Php.FPMSocket := "/var/run/php/php8.2-fpm.sock"; Php.IsDefault := false |}.
Definition php100_entry : Php.PHPVersion :=
  {| Php.Version := "10.0"; Php.FullPath := "/usr/bin/php10.0";
     Php.FPMSocket := "/var/run/php/php10.0-fpm.sock"; Php.IsDefault := false |}.

(** A machine with PHP 8.2 and PHP 10.0 installed under [/usr/bin]. *)
Definition world_php10 : World :=
  {| fs := {[ "/usr/bin" := NDir;
              "/usr/bin/php8.2" := NFile "";
              "/usr/bin/php10.0" := NFile "" ]};
     trace := []; fault := fun _ _ => false;
     procOut := fun argv =>
       if decide (argv = ["/usr/bin/php8.2"; "-v"])
       then Some "PHP 8.2.15 (cli) (built: Jan 16 2024 12:02:01) (NTS)"
       else if decide (argv = ["/usr/bin/php10.0"; "-v"])
       then Some "PHP 10.0.1 (cli) (built: Mar  3 2031 09:30:12) (NTS)"
       else None;
     lookPath := fun _ => None;
     getenv := fun _ => ""; GOOS := "linux";
     sitesDoc := None; configDoc := None; pathsRes := None |}.

(** The resolver configuration as distributions ship it: the directive is
    there, commented out. *)
Definition shipped_resolved_conf : string :=
  "[Resolve]" +:+ nl +:+ "#DNS=" +:+ nl +:+ "#DNSStubListener=yes" +:+ nl.

Definition world_shipped_conf : World :=
  quiet_world {[ Dns.resolvedConf := NFile shipped_resolved_conf ]}.

(** A machine whose [/etc/resolv.conf] points at the upstream list the
    system resolver publishes, one of the modes the resolver supports. *)
Definition world_uplink : World :=
  quiet_world {[ Dns.etcResolvConf := NLink Dns.systemdResolveResolvConf;
                 Dns.systemdResolveResolvConf := NFile "nameserver 192.168.1.1";
                 Dns.resolvedConf := NFile "[Resolve]" ]}.

(** The same with the stub file as target, as installations set it up. *)
Definition world_stub : World :=
  quiet_world {[ Dns.etcResolvConf := NLink Dns.resolvedStubSymlink;
                 Dns.resolvedStubSymlink := NFile "nameserver 127.0.0.53";
                 Dns.resolvedConf := NFile "[Resolve]" ]}.

(** Nothing fails from outside and [/etc/resolv.conf] is a symbolic link to
    [t]. *)
Definition stub_inv (t : string) (w : World) : Prop :=
  (forall n o, fault w n o = false)
  /\ fs w !! Dns.etcResolvConf = Some (NLink t).

(** The computation keeps a property of the world. *)
Definition preserves {A} (I : World -> Prop) (m : M A) : Prop :=
  forall w, I w -> I (m w).2.

(** From a world where [P] holds, the computation ends with a result and
    a world related by [Q]. *)
Definition hoare {A} (P : World -> Prop) (m : M A) (Q : A -> World -> Prop) : Prop :=
  forall w, P w -> Q (m w).1 (m w).2.

(** The last steps of [RevertSystemdResolvedStub], after the restart. *)
Definition revert_tail : M (option error) :=
  Os.Run ["sudo"; "rm"; "-f"; Dns.phpParkDnsmasqConf];;
  Os.Run ["sudo"; "rm"; "-f"; Dns.etcResolvConf];;
  must Os.Run ["sudo"; "ln"; "-sf"; Dns.resolvedStubSymlink; Dns.etcResolvConf]
    orfail "failed to restore /etc/resolv.conf";
  mret None.

(** Nothing fails from outside and the marker of the disabled stub listener,
    [/etc/dnsmasq.d/phppark.conf], is not a directory. *)
Definition marker_inv (w : World) : Prop :=
  (forall n o, fault w n o = false)
  /\ fs w !! Dns.phpParkDnsmasqConf <> Some NDir.

(** The locations below the home directory [/home/u]. *)
Definition paths_u : Config.Paths :=
  {| Config.Home := "/home/u/.phppark";
     Config.ConfigFile := "/home/u/.phppark/config.yaml";
     Config.SitesFile := "/home/u/.phppark/sites.json";
     Config.Nginx := "/home/u/.phppark/nginx";
     Config.Certificates := "/home/u/.phppark/certificates" |}.

(** A world in which the two sites are registered and the rendered
    configuration of the first is in place. *)
Definition world_linked : World :=
  {| fs := {[ "/home/u/.phppark/nginx/blog.conf" := NFile "server {}" ]};
     trace := []; fault := fun _ _ => false;
     procOut := fun _ => None; lookPath := fun _ => None;
     getenv := fun _ => ""; GOOS := "linux";
     sitesDoc := Some two_sites;
     configDoc := Some {| Config.Domain := "test"; Config.DefaultPHP := "8.2";
                          Config.UseHTTPS := false |};
     pathsRes := Some paths_u |}.

(** A world in which a rendered configuration waits to be deployed and the
    syntax check of the proxy fails. *)
Definition world_invalid_config : World :=
  {| fs := {[ "/home/u/.phppark/nginx/blog.conf" := NFile "server {" ]};
     trace := [];
     fault := fun _ o => match o with
                         | OpRun argv _ => bool_decide (argv = Services.cmd_nginx_test)
                         | _ => false
                         end;
     procOut := fun _ => None; lookPath := fun _ => None;
     getenv := fun _ => ""; GOOS := "linux";
     sitesDoc := None; configDoc := None; pathsRes := None |}.

(** Every byte is a decimal digit. *)
Fixpoint all_digits (s : string) : bool :=
  match s with
  | EmptyString => true
  | String c s' => Php.is_digit c && all_digits s'
  end.

(** The entry stands for a binary the scan has met: a name under a search
    path that begins with [php] and is longer, whose binary reports the
    entry's version. *)
Definition entry_found (w : World) (e : Php.PHPVersion) : Prop :=
  exists dir entries name,
    dir ∈ Php.searchPaths
    /\ Os.ReadDir w dir = Some entries /\ name ∈ entries
    /\ GoStrings.HasPrefix name "php" = true /\ 3 < String.length name
    /\ Php.FullPath e = Filepath.Join [dir; name]
    /\ Php.GetPHPVersionFromBinary w (Php.FullPath e) = inr (Php.Version e).

(** What the scan has collected: entries of binaries it has met, none
    marked as default yet. *)
Definition scanned (w : World) : list Php.PHPVersion :=
  (foldl (Php.scan_dir w) ([], ∅) Php.searchPaths).1.

(** The version the [php] on the search path of the shell reports, in
    two-component form. *)
Definition default_version (w : World) : option string :=
  match lookPath w "php" with
  | Some defaultPath =>
      match Php.GetPHPVersionFromBinary w defaultPath with
      | inr version => Some (Php.FormatVersion version)
      | inl _ => None
      end
  | None => None
  end.

Definition php83_default_entry : Php.PHPVersion :=
  {| Php.Version := "8.3"; Php.FullPath := "/usr/bin/php8.3";
     Php.FPMSocket := "/var/run/php/php8.3-fpm.sock"; Php.IsDefault := true |}.
Definition php74_entry : Php.PHPVersion :=
  {| Php.Version := "7.4"; Php.FullPath := "/usr/bin/php7.4";
     Php.FPMSocket := "/var/run/php/php7.4-fpm.sock"; Php.IsDefault := false |}.

(** A machine with PHP 8.3 and PHP 7.4 under [/usr/bin], a second PHP 8.3
    under [/usr/local/bin], and [php] on the search path being 8.3. *)
Definition world_two_php : World :=
  {| fs := {[ "/usr/bin" := NDir;
              "/usr/bin/php7.4" := NFile "";
              "/usr/bin/php8.3" := NFile "";
              "/usr/bin/phpize" := NFile "";
              "/usr/local/bin" := NDir;
              "/usr/local/bin/php8.3" := NFile "" ]};
     trace := []; fault := fun _ _ => false;
     procOut := fun argv =>
       if decide (argv = ["/usr/bin/php7.4"; "-v"])
       then Some "PHP 7.4.33 (cli) (built: Sep  2 2023 08:03:46) ( NTS )"
       else if decide (argv = ["/usr/bin/php8.3"; "-v"]
                       \/ argv = ["/usr/local/bin/php8.3"; "-v"]
                       \/ argv = ["/usr/bin/php"; "-v"])
       then Some "PHP 8.3.6 (cli) (built: Jul 14 2025 18:30:55) (NTS)"
       else None;
     lookPath := fun name => if decide (name = "php") then Some "/usr/bin/php" else None;
     getenv := fun _ => ""; GOOS := "linux";
     sitesDoc := None; configDoc := None; pathsRes := None |}.

(** The ways a service is brought up: it is active already; it is not and
    cannot be started; it is started, and enabling it at boot is tried. *)
Definition start_outcomes (service : string) (r : option error)
    (seg : list (op * bool)) : Prop :=
  (seg = [(OpRun ["systemctl"; "is-active"; service] "", true)] /\ r = None)
  \/ (seg = [(OpRun ["systemctl"; "is-active"; service] "", false);
             (OpRun ["systemctl"; "start"; service] "", false)]
      /\ r <> None)
  \/ (exists ok,
        seg = [(OpRun ["systemctl"; "is-active"; service] "", false);
               (OpRun ["systemctl"; "start"; service] "", true);
               (OpRun ["systemctl"; "enable"; service] "", ok)]
        /\ r = None).

(** A check whether a service is active. *)
Definition is_active_check (e : op * bool) : bool :=
  match e.1 with
  | OpRun ("systemctl" :: "is-active" :: _) _ => true
  | _ => false
  end.

(** A start of a service that failed. *)
Definition failed_start (e : op * bool) : bool :=
  match e with
  | (OpRun ("systemctl" :: "start" :: _) _, false) => true
  | _ => false
  end.

(** The check [StartPHPFPM] begins with, for an entry of the list handed to
    [EnsurePHPFPMRunning]. *)
Definition active_check_of (entry : string) : op :=
  OpRun ["systemctl"; "is-active";
         "php" +:+ Services.version_of_entry entry +:+ "-fpm"] "".

(** The package installations of [InstallPHP] that follow the repository
    and the index: the pool package, then the extensions. *)
Definition apt_install (package : string) : op :=
  OpRun ["apt-get"; "install"; "-y"; package] "".

(** How the syntax check and the reload that end a deployment or a removal
    can go: the check fails; the check succeeds and the service manager
    reloads; the check succeeds, the service manager fails and the proxy
    binary is signalled. *)
Definition validate_reload_shape (r : option error) (seg : list (op * bool)) : Prop :=
  (seg = [(OpRun Services.cmd_nginx_test "", false)] /\ r <> None)
  \/ (seg = [(OpRun Services.cmd_nginx_test "", true);
             (OpRun Services.cmd_systemctl_reload "", true)] /\ r = None)
  \/ (exists ok,
        seg = [(OpRun Services.cmd_nginx_test "", true);
               (OpRun Services.cmd_systemctl_reload "", false);
               (OpRun Services.cmd_nginx_reload "", ok)]
        /\ (r = None <-> ok = true)).

(** A run that changes files first and then, unless that has failed, checks
    and reloads. *)
Definition files_then_reload (r : option error) (seg : list (op * bool)) : Prop :=
  exists q, quiet q
    /\ ((seg = q /\ r <> None)
        \/ exists t, seg = q ++ t /\ validate_reload_shape r t).

(** * Theorems *)

(** ** The virtual-host generator *)

Lemma probe_find w sitePath dirs :
  Nginx.probe w sitePath dirs =
  default sitePath
    (List.find (exists_as_dir w) (map (fun d => Filepath.Join [sitePath; d]) dirs)).
Proof.
  induction dirs as [|d dirs IH]; [done|].
  cbn [Nginx.probe map List.find]. unfold exists_as_dir at 1.
  destruct (Os.Stat w (Filepath.Join [sitePath; d])) as [info|]; [|exact IH].
  destruct (Os.IsDir info); [done|exact IH].
Qed.

(** C6. For every site path, [GetDocumentRoot] probes [public],
    [public_html], [web], [htdocs] under the site path in that order and
    returns the first probed path that exists as a directory, else the site
    path itself; when [public] under the site path is a directory, that path is
    the result. *)
Theorem GetDocumentRoot_first_public_dir (w : World) (sitePath : string) :
  Nginx.GetDocumentRoot w sitePath =
    default sitePath
      (List.find (exists_as_dir w)
         [Filepath.Join [sitePath; "public"]; Filepath.Join [sitePath; "public_html"];
          Filepath.Join [sitePath; "web"]; Filepath.Join [sitePath; "htdocs"]])
  /\ (exists_as_dir w (Filepath.Join [sitePath; "public"]) = true ->
      Nginx.GetDocumentRoot w sitePath = Filepath.Join [sitePath; "public"]).
Proof.
  unfold Nginx.GetDocumentRoot. rewrite probe_find. split; [done|].
  intros H. cbn [map Nginx.publicDirs List.find]. by rewrite H.
Qed.

Lemma GetDocumentRoot_witness :
  exists_as_dir (quiet_world {[ "/home/u/sites/blog/public" := NDir ]})
    (Filepath.Join ["/home/u/sites/blog"; "public"]) = true
  /\ Nginx.GetDocumentRoot
       (quiet_world {[ "/home/u/sites/blog/public" := NDir ]}) "/home/u/sites/blog"
     = "/home/u/sites/blog/public".
Proof.
  split; [vm_compute; reflexivity|].
  apply (GetDocumentRoot_first_public_dir
           (quiet_world {[ "/home/u/sites/blog/public" := NDir ]}) "/home/u/sites/blog").
  vm_compute. reflexivity.
Defined.

(** C10. A call of [CreateSiteConfig] with the empty runtime version yields
    the version ["8.2"] and the socket of that version, whatever the world
    holds as configuration; [GetPHPSocket] of the empty version is that
    socket too. *)
Theorem CreateSiteConfig_empty_version (w : World)
    (siteName sitePath domain : string) (useSSL : bool) :
  Nginx.PHPVersion (Nginx.CreateSiteConfig w siteName sitePath domain "" useSSL) = "8.2"
  /\ Nginx.PHPSocket (Nginx.CreateSiteConfig w siteName sitePath domain "" useSSL)
     = "/var/run/php/php8.2-fpm.sock"
  /\ Nginx.GetPHPSocket "" = "/var/run/php/php8.2-fpm.sock".
Proof. repeat split. Qed.

(** ** The site registry *)

Lemma find_site_None name sites :
  Config.find_site name sites = None <-> name ∉ map Config.Name sites.
Proof.
  induction sites as [|s sites IH]; cbn [Config.find_site map].
  - split; [intros _; apply not_elem_of_nil|done].
  - rewrite not_elem_of_cons. destruct (decide (Config.Name s = name)) as [E|E].
    + split; [done|]. intros [N _]. by destruct N.
    + rewrite IH. split; [intros H; split; [congruence|done]|by intros [_ H]].
Qed.

Lemma find_site_name name sites s :
  Config.find_site name sites = Some s -> Config.Name s = name.
Proof.
  induction sites as [|s0 sites IH]; cbn [Config.find_site]; [done|].
  destruct (decide (Config.Name s0 = name)); [congruence|exact IH].
Qed.

Lemma find_add_site s sites :
  Config.find_site (Config.Name s) (Config.add_site s sites) = Some s.
Proof.
  induction sites as [|s0 sites IH]; cbn [Config.add_site Config.find_site].
  - by rewrite decide_True.
  - destruct (decide (Config.Name s0 = Config.Name s)) as [E|E];
      cbn [Config.find_site]; [by rewrite decide_True|by rewrite decide_False].
Qed.

(** Replacement in place: the record of that name gives way, the records
    before and after it stay where they are. *)
Lemma add_site_in_place s old sites :
  Config.find_site (Config.Name s) sites = Some old ->
  exists before after,
    sites = before ++ old :: after
    /\ Config.add_site s sites = before ++ s :: after
    /\ Config.Name s ∉ map Config.Name before.
Proof.
  induction sites as [|s0 sites IH]; cbn [Config.find_site Config.add_site]; [done|].
  destruct (decide (Config.Name s0 = Config.Name s)) as [E|E].
  - intros [= ->]. exists [], sites. repeat split; try done. apply not_elem_of_nil.
  - intros H. destruct (IH H) as (before & after & -> & -> & Hn).
    exists (s0 :: before), after. repeat split; try done.
    cbn [map]. rewrite not_elem_of_cons. split; [congruence|done].
Qed.

Lemma add_site_fresh s sites :
  Config.find_site (Config.Name s) sites = None ->
  Config.add_site s sites = sites ++ [s].
Proof.
  induction sites as [|s0 sites IH]; cbn [Config.find_site Config.add_site]; [done|].
  destruct (decide (Config.Name s0 = Config.Name s)); [done|].
  intros H. by rewrite IH.
Qed.

Lemma add_site_names s sites :
  map Config.Name (Config.add_site s sites) =
  match Config.find_site (Config.Name s) sites with
  | Some _ => map Config.Name sites
  | None => map Config.Name sites ++ [Config.Name s]
  end.
Proof.
  destruct (Config.find_site (Config.Name s) sites) as [old|] eqn:H.
  - destruct (add_site_in_place _ _ _ H) as (before & after & -> & -> & _).
    rewrite !map_app. cbn [map]. by rewrite (find_site_name _ _ _ H).
  - rewrite add_site_fresh by done. by rewrite map_app.
Qed.

Lemma add_site_NoDup s sites :
  NoDup (map Config.Name sites) -> NoDup (map Config.Name (Config.add_site s sites)).
Proof.
  intros H. rewrite add_site_names.
  destruct (Config.find_site (Config.Name s) sites) eqn:F; [done|].
  apply NoDup_app. repeat split; [done| |apply NoDup_singleton].
  intros x Hx ->%list_elem_of_singleton.
  by apply find_site_None in F.
Qed.

Lemma remove_site_sublist name sites :
  sublist (map Config.Name (Config.remove_site name sites)) (map Config.Name sites).
Proof.
  induction sites as [|s0 sites IH]; cbn [Config.remove_site map]; [done|].
  destruct (decide (Config.Name s0 = name)); cbn [map].
  - by apply sublist_cons.
  - by apply sublist_skip.
Qed.

Lemma reachable_NoDup r : reachable r -> NoDup (site_names r).
Proof.
  unfold site_names. induction 1 as [|r s _ IH|r n _ IH]; cbn.
  - apply NoDup_nil_2.
  - by apply add_site_NoDup.
  - exact (sublist_NoDup _ _ IH (remove_site_sublist n (Config.Sites r))).
Qed.

(** C2. After the insertion of a site, the lookup of its name returns that
    site; when a site of that name was present, the new record takes its
    place where it stood, so the registry keeps its length; and no registry
    the tool can reach, from the empty one by insertions and removals, holds
    two sites of one name, which insertion preserves. *)
Theorem AddSite_upsert (r : Config.SiteRegistry) (s : Config.Site) :
  Config.FindSite (Config.AddSite r s) (Config.Name s) = Some s
  /\ (forall old, Config.FindSite r (Config.Name s) = Some old ->
        length (Config.Sites (Config.AddSite r s)) = length (Config.Sites r)
        /\ exists before after,
             Config.Sites r = before ++ old :: after
             /\ Config.Sites (Config.AddSite r s) = before ++ s :: after
             /\ Config.Name s ∉ map Config.Name before)
  /\ (NoDup (site_names r) -> NoDup (site_names (Config.AddSite r s)))
  /\ (reachable r -> NoDup (site_names r) /\ NoDup (site_names (Config.AddSite r s))).
Proof.
  unfold Config.FindSite, Config.AddSite, site_names. cbn [Config.Sites].
  split; [apply find_add_site|].
  split.
  { intros old H. destruct (add_site_in_place _ _ _ H) as (before & after & E1 & E2 & Hn).
    split; [|by exists before, after].
    rewrite E2, E1, !length_app. done. }
  split; [apply add_site_NoDup|].
  intros H. split; [by apply reachable_NoDup|].
  apply add_site_NoDup. by apply reachable_NoDup.
Qed.

Lemma AddSite_upsert_witness :
  NoDup (site_names two_sites)
  /\ NoDup (site_names (Config.AddSite two_sites blog_site_secured))
  /\ Config.FindSite (Config.AddSite two_sites blog_site_secured) "blog"
     = Some blog_site_secured.
Proof.
  assert (NoDup (site_names two_sites)) as Hnd.
  { apply (bool_decide_unpack _). vm_compute. exact I. }
  split; [exact Hnd|].
  split.
  - exact (proj1 (proj2 (proj2 (AddSite_upsert two_sites blog_site_secured))) Hnd).
  - exact (proj1 (AddSite_upsert two_sites blog_site_secured)).
Defined.

(** ** The command layer *)

(** C9. When the stored registry holds no site of the name, [runUnlink]
    returns the error "site ... not found" and the world it leaves is the
    world it found: no operation was attempted, nothing was removed from the
    registry and it was not saved. *)
Theorem runUnlink_not_found (w : World) (r : Config.SiteRegistry) (n : string) :
  sitesDoc w = Some r ->
  (forall s, s ∈ Config.Sites r -> Config.Name s <> n) ->
  Main.runUnlink n w = (Some (Errorf ("site '" +:+ n +:+ "' not found")), w)
  /\ trace (Main.runUnlink n w).2 = trace w
  /\ sitesDoc (Main.runUnlink n w).2 = Some r.
Proof.
  intros Hdoc Hnone.
  assert (Config.FindSite r n = None) as Hfind.
  { apply find_site_None. intros (s & E & Hs)%list_elem_of_fmap.
    by apply (Hnone s Hs). }
  assert (Main.runUnlink n w = (Some (Errorf ("site '" +:+ n +:+ "' not found")), w)) as E.
  { unfold Main.runUnlink, mbind, M_bind, bind, query, ConfigStore.LoadSites.
    rewrite Hdoc, Hfind. reflexivity. }
  rewrite E. auto.
Qed.

Lemma runUnlink_not_found_witness :
  Main.runUnlink "wiki" (world_with_sites two_sites)
  = (Some (Errorf "site 'wiki' not found"), world_with_sites two_sites).
Proof.
  refine (proj1 (runUnlink_not_found (world_with_sites two_sites) two_sites "wiki"
                   eq_refl _)).
  intros s Hs. cbn in Hs.
  apply elem_of_cons in Hs as [->|Hs]; [discriminate|].
  apply list_elem_of_singleton in Hs as ->. discriminate.
Defined.

(** ** The deployment service *)

Section Emits.
Context {A B : Type}.

Lemma emits_ret (a : A) (P : A -> list (op * bool) -> Prop) :
  P a [] -> emits (mret a) P.
Proof. intros H w. exists []. by rewrite app_nil_r. Qed.

Lemma emits_query (f : World -> A) (P : A -> list (op * bool) -> Prop) :
  (forall a, P a []) -> emits (query f) P.
Proof. intros H w. exists []. by rewrite app_nil_r. Qed.

Lemma emits_bind (m : M A) (k : A -> M B) P (Q : B -> list (op * bool) -> Prop) :
  emits m P ->
  (forall a seg, P a seg -> emits (k a) (fun b seg' => Q b (seg ++ seg'))) ->
  emits (m ≫= k) Q.
Proof.
  intros Hm Hk w. unfold mbind, M_bind, bind.
  destruct (Hm w) as (seg & Ht & HP). destruct (m w) as [a w1]. cbn in *.
  destruct (Hk a seg HP w1) as (seg' & Ht' & HQ).
  exists (seg ++ seg'). by rewrite Ht', Ht, app_assoc.
Qed.

Lemma emits_query_bind (f : World -> A) (k : A -> M B) Q :
  (forall a, emits (k a) Q) -> emits (query f ≫= k) Q.
Proof.
  intros Hk. apply (emits_bind _ _ (fun _ seg => seg = [])).
  - by apply emits_query.
  - intros a seg ->. apply Hk.
Qed.

Lemma emits_weaken (m : M A) (P Q : A -> list (op * bool) -> Prop) :
  emits m P -> (forall a seg, P a seg -> Q a seg) -> emits m Q.
Proof. intros Hm HPQ w. destruct (Hm w) as (seg & ? & ?). eauto. Qed.
End Emits.

Lemma emits_or_fail m msg k (P R : option error -> list (op * bool) -> Prop) :
  emits m P ->
  (forall e seg, P (Some e) seg -> R (Some (Wrap msg e)) seg) ->
  (forall seg, P None seg -> emits k (fun r seg' => R r (seg ++ seg'))) ->
  emits (or_fail m msg k) R.
Proof.
  intros Hm He Hk. unfold or_fail. eapply emits_bind; [exact Hm|].
  intros [e|] seg HP.
  - apply emits_ret. rewrite app_nil_r. by apply He.
  - by apply Hk.
Qed.

(** Every operation leaves one record, successful exactly when no error
    comes back. *)
Lemma emits_attempt o effect :
  emits (Os.attempt o effect)
    (fun r seg => seg = [(o, bool_decide (r = None))]).
Proof.
  intros w. unfold Os.attempt.
  destruct (fault w (length (trace w)) o); [by eexists|].
  destruct (effect (fs w)); by eexists.
Qed.

Lemma quiet_app s1 s2 : quiet s1 -> quiet s2 -> quiet (s1 ++ s2).
Proof. apply Forall_app_2. Qed.

Lemma emits_attempt_quiet o effect :
  (forall ok, is_validation (o, ok) = false /\ is_reload (o, ok) = false) ->
  emits (Os.attempt o effect) (fun _ seg => quiet seg).
Proof.
  intros H. eapply emits_weaken; [apply emits_attempt|].
  intros r seg ->. by apply Forall_singleton.
Qed.

Lemma copyFile_quiet src dst :
  emits (Services.copyFile src dst) (fun _ seg => quiet seg).
Proof.
  unfold Services.copyFile. apply emits_query_bind.
  intros [err|input]; [by apply emits_ret; constructor|].
  eapply emits_bind; [by apply emits_attempt_quiet|].
  intros [err|] seg' Hq.
  - apply emits_ret. by rewrite app_nil_r.
  - eapply emits_weaken; [by apply emits_attempt_quiet|].
    intros r2 seg2 Hq'. cbn. by apply quiet_app.
Qed.

Lemma createSymlink_quiet src dst :
  emits (Services.createSymlink src dst) (fun _ seg => quiet seg).
Proof.
  unfold Services.createSymlink.
  eapply emits_bind; [by apply emits_attempt_quiet|].
  intros r1 seg Hq. eapply emits_weaken; [by apply emits_attempt_quiet|].
  intros r2 seg2 Hq'. by apply quiet_app.
Qed.

(** The syntax check leaves its one record, and fails exactly when the
    invocation does. *)
Lemma TestNginxConfig_emits :
  emits Services.TestNginxConfig
    (fun r seg => seg = [(OpRun Services.cmd_nginx_test "", bool_decide (r = None))]).
Proof.
  unfold Services.TestNginxConfig, Os.Run, Os.RunStdin.
  eapply emits_or_fail; [apply emits_attempt| |].
  - by intros e seg ->.
  - intros seg ->. by apply emits_ret.
Qed.

(** A reload leaves only reloads. *)
Lemma ReloadNginx_emits :
  emits Services.ReloadNginx
    (fun _ seg => Forall (fun e => is_validation e = false) seg).
Proof.
  unfold Services.ReloadNginx, Os.Run, Os.RunStdin.
  eapply emits_bind; [apply emits_attempt|].
  intros [e|] seg ->.
  - eapply emits_or_fail; [apply emits_attempt| |].
    + intros e' seg' ->. cbn. by repeat constructor.
    + intros seg' ->. apply emits_ret. cbn. by repeat constructor.
  - apply emits_ret. by repeat constructor.
Qed.

Lemma DeployNginxConfig_shape siteName configPath :
  emits (Services.DeployNginxConfig siteName configPath) deploy_shape.
Proof.
  unfold Services.DeployNginxConfig.
  eapply emits_or_fail; [apply copyFile_quiet| |].
  { intros e seg Hq. exists seg. split; [done|]. by left. }
  intros s1 H1.
  eapply emits_or_fail; [apply createSymlink_quiet| |].
  { intros e seg Hq. exists (s1 ++ seg). split; [by apply quiet_app|]. by left. }
  intros s2 H2.
  apply emits_query_bind. intros st.
  eapply (emits_bind _ _ (fun _ seg => quiet seg)).
  { destruct st; [by apply emits_attempt_quiet|by apply emits_ret; constructor]. }
  intros r3 s3 H3.
  assert (quiet (s1 ++ s2 ++ s3)) as Hq by (by repeat apply quiet_app).
  eapply emits_or_fail; [apply TestNginxConfig_emits| |].
  { intros e seg ->. exists (s1 ++ s2 ++ s3). split; [done|].
    right; left. by rewrite <-!app_assoc. }
  intros s4 ->.
  eapply emits_or_fail; [apply ReloadNginx_emits| |].
  { intros e rl Hrl. exists (s1 ++ s2 ++ s3). split; [done|].
    right; right. exists rl. by rewrite <-!app_assoc. }
  intros rl Hrl. apply emits_ret.
  exists (s1 ++ s2 ++ s3). split; [done|].
  right; right. exists rl. by rewrite app_nil_r, <-!app_assoc.
Qed.


Lemma split_after_marker {X} (l1 l2 before after : list X) (x e : X) :
  l1 ++ x :: l2 = before ++ e :: after -> e ∉ l1 -> e <> x -> x ∈ before.
Proof.
  revert before. induction l1 as [|a l1 IH]; intros [|b before] E Hn Hx; simplify_eq/=.
  - left.
  - by apply not_elem_of_cons in Hn as [? _].
  - apply not_elem_of_cons in Hn as [_ Hn]. right. by eapply IH.
Qed.

Lemma quiet_no_reload q e : quiet q -> is_reload e = true -> e ∉ q.
Proof.
  intros Hq He Hin. apply (proj1 (Forall_forall _ _) Hq) in Hin as [_ Hr]. congruence.
Qed.

Lemma quiet_no_validation q e : quiet q -> is_validation e = true -> e ∉ q.
Proof.
  intros Hq He Hin. apply (proj1 (Forall_forall _ _) Hq) in Hin as [Hv _]. congruence.
Qed.

(** C1. In every run of [DeployNginxConfig], a reload is attempted only
    after a syntax check of the proxy configuration has succeeded earlier in
    the same run; and when a syntax check fails, the run ends with an error
    and attempts no reload at all. *)
Theorem DeployNginxConfig_validates_before_reload
    (w : World) (siteName configPath : string) :
  let err := (Services.DeployNginxConfig siteName configPath w).1 in
  let w' := (Services.DeployNginxConfig siteName configPath w).2 in
  trace w' = trace w ++ since w w'
  /\ (forall before e after,
        since w w' = before ++ e :: after -> is_reload e = true ->
        exists v, v ∈ before /\ is_validation v = true /\ v.2 = true)
  /\ (forall v, v ∈ since w w' -> is_validation v = true -> v.2 = false ->
        err <> None /\ forall e, e ∈ since w w' -> is_reload e = false).
Proof.
  intros err w'. subst err w'.
  destruct (DeployNginxConfig_shape siteName configPath w) as (seg & Ht & q & Hq & Hshape).
  set (err := (Services.DeployNginxConfig siteName configPath w).1) in *.
  set (w' := (Services.DeployNginxConfig siteName configPath w).2) in *.
  assert (since w w' = seg) as ->.
  { unfold since. rewrite Ht. apply drop_app_length. }
  split; [done|].
  destruct Hshape as [[-> Herr]|[[-> Herr]|(rl & -> & Hrl)]].
  - split.
    + intros before e after E He. exfalso.
      apply (quiet_no_reload _ e Hq He). rewrite E. set_solver.
    + intros v Hv Hval _. exfalso. by apply (quiet_no_validation _ v Hq Hval).
  - split.
    + intros before e after E He.
      exists (OpRun Services.cmd_nginx_test "", false). exfalso.
      assert (e ∈ q ++ [(OpRun Services.cmd_nginx_test "", false)]) as Hin
        by (rewrite E; set_solver).
      apply elem_of_app in Hin as [Hin|Hin%list_elem_of_singleton].
      * by apply (quiet_no_reload _ e Hq He).
      * by subst e.
    + intros v _ _ _. split; [done|].
      intros e [Hin|Hin%list_elem_of_singleton]%elem_of_app.
      * by apply (proj1 (Forall_forall _ _) Hq) in Hin as [_ ?].
      * by subst e.
  - split.
    + intros before e after E He.
      exists (OpRun Services.cmd_nginx_test "", true). split; [|done].
      eapply split_after_marker; [exact E| |].
      * by apply quiet_no_reload.
      * by intros ->.
    + intros v Hv Hval Hfail. exfalso.
      apply elem_of_app in Hv as [Hv|Hv].
      * by apply (quiet_no_validation _ v Hq Hval).
      * apply elem_of_cons in Hv as [->|Hv]; [done|].
        apply (proj1 (Forall_forall _ _) Hrl) in Hv. congruence.
Qed.

Lemma DeployNginxConfig_witness :
  let r := Services.DeployNginxConfig "blog" "/home/u/.phppark/nginx/blog.conf"
             world_invalid_config in
  (OpRun Services.cmd_nginx_test "", false) ∈ since world_invalid_config r.2
  /\ r.1 <> None
  /\ forall e, e ∈ since world_invalid_config r.2 -> is_reload e = false.
Proof.
  intros r.
  assert ((OpRun Services.cmd_nginx_test "", false) ∈ since world_invalid_config r.2) as Hin.
  { vm_compute. set_solver. }
  split; [exact Hin|].
  exact (proj2 (proj2 (DeployNginxConfig_validates_before_reload
                         world_invalid_config "blog" "/home/u/.phppark/nginx/blog.conf"))
           _ Hin eq_refl eq_refl).
Defined.

(** ** The runtime version detector *)

Lemma Split_nonempty s sep : GoStrings.Split s sep <> [].
Proof.
  destruct s as [|c s]; cbn; [done|].
  destruct (Ascii.eqb c sep); [done|]. by destruct (GoStrings.Split s sep).
Qed.

Lemma Split_pieces_absent s sep : Forall (absent sep) (GoStrings.Split s sep).
Proof.
  induction s as [|c s IH]; cbn [GoStrings.Split].
  - by repeat constructor.
  - destruct (Ascii.eqb_spec c sep) as [->|Hc].
    + by constructor.
    + destruct (GoStrings.Split s sep) as [|piece pieces]; [by repeat constructor|].
      inversion_clear IH. by repeat constructor.
Qed.

Lemma Split_absent s sep : absent sep s -> GoStrings.Split s sep = [s].
Proof.
  induction s as [|c s IH]; [done|]. intros [Hc Hs]. cbn [GoStrings.Split].
  destruct (Ascii.eqb_spec c sep); [done|]. by rewrite IH.
Qed.

Lemma Split_app_sep a b sep :
  absent sep a ->
  GoStrings.Split (a +:+ String sep b) sep = a :: GoStrings.Split b sep.
Proof.
  induction a as [|c a IH].
  - intros _. change ("" +:+ String sep b) with (String sep b).
    cbn [GoStrings.Split]. by rewrite Ascii.eqb_refl.
  - intros [Hc Ha]. change (String c a +:+ String sep b) with (String c (a +:+ String sep b)).
    cbn [GoStrings.Split]. destruct (Ascii.eqb_spec c sep); [done|]. by rewrite IH.
Qed.

(** Normalizing twice is normalizing once. *)
Lemma FormatVersion_idempotent v :
  Php.FormatVersion (Php.FormatVersion v) = Php.FormatVersion v.
Proof.
  pose proof (Split_pieces_absent v ".") as Hfree.
  destruct (GoStrings.Split v ".") as [|p0 [|p1 rest]] eqn:E.
  - assert (Php.FormatVersion v = v) as -> by (unfold Php.FormatVersion; by rewrite E).
    unfold Php.FormatVersion; by rewrite E.
  - assert (Php.FormatVersion v = v) as -> by (unfold Php.FormatVersion; by rewrite E).
    unfold Php.FormatVersion; by rewrite E.
  - assert (Php.FormatVersion v = p0 +:+ String "." p1) as ->
      by (unfold Php.FormatVersion; by rewrite E).
    inversion_clear Hfree as [|?? H0 Hrest]. inversion_clear Hrest as [|?? H1 _].
    unfold Php.FormatVersion. by rewrite Split_app_sep, Split_absent.
Qed.

Lemma FormatVersion_nonempty v : v <> "" -> Php.FormatVersion v <> "".
Proof.
  intros Hv. unfold Php.FormatVersion.
  destruct (GoStrings.Split v ".") as [|p0 [|p1 rest]]; [done..|].
  by destruct p0.
Qed.

Lemma match_here_nonempty s v : Php.match_here s = Some v -> v <> "".
Proof.
  unfold Php.match_here. intros H.
  repeat case_match; simplify_eq. discriminate.
Qed.

Lemma find_version_nonempty s v : Php.find_version s = Some v -> v <> "".
Proof.
  induction s as [|c s IH]; cbn [Php.find_version].
  - destruct (Php.match_here "") eqn:E; [|done].
    intros [= <-]. by eapply match_here_nonempty.
  - destruct (Php.match_here (String c s)) eqn:E; [|exact IH].
    intros [= <-]. by eapply match_here_nonempty.
Qed.

Lemma GetPHPVersionFromBinary_nonempty w p v :
  Php.GetPHPVersionFromBinary w p = inr v -> v <> "".
Proof.
  unfold Php.GetPHPVersionFromBinary. destruct (Os.Output w [p; "-v"]); [|done].
  destruct (Php.find_version s) eqn:E; [|done].
  intros [= <-]. by eapply find_version_nonempty.
Qed.

Lemma scan_inv_init : scan_inv ([], ∅).
Proof.
  split; [apply NoDup_nil_2|]. split; [|constructor].
  intros v. unfold Php.seen. cbn. rewrite lookup_empty. cbn.
  split; [done|]. by intros ?%elem_of_nil.
Qed.

Lemma scan_entry_inv w searchPath st name :
  scan_inv st -> scan_inv (Php.scan_entry w searchPath st name).
Proof.
  destruct st as [versions versionMap]. intros (Hnd & Hmap & Hwf).
  unfold Php.scan_entry.
  destruct (GoStrings.HasPrefix name "php" && (3 <? String.length name)); [|done].
  destruct (Php.GetPHPVersionFromBinary w (Filepath.Join [searchPath; name]))
    as [err|version] eqn:Hv; [done|].
  destruct (Php.seen versionMap (Php.FormatVersion version)) eqn:Hseen; [done|].
  assert (Php.FormatVersion version ∉ map Php.Version versions) as Hfresh.
  { intros Hin. apply Hmap in Hin. cbn in Hin. congruence. }
  split; [|split]; cbn [fst snd] in *.
  - rewrite map_app. cbn [map Php.Version]. apply NoDup_app.
    repeat split; [done| |apply NoDup_singleton].
    by intros x Hx ->%list_elem_of_singleton.
  - intros v. rewrite map_app, elem_of_app. cbn [map Php.Version].
    rewrite list_elem_of_singleton, <-Hmap. unfold Php.seen.
    destruct (decide (Php.FormatVersion version = v)) as [->|Hne].
    + rewrite lookup_insert_eq. cbn. split; [intros _; by right|done].
    + rewrite lookup_insert_ne by done.
      split; [by left|intros [?|?]; [done|congruence]].
  - apply Forall_app. split; [done|]. apply Forall_singleton.
    repeat split; cbn.
    + apply FormatVersion_nonempty. by eapply GetPHPVersionFromBinary_nonempty.
    + apply FormatVersion_idempotent.
Qed.

Lemma foldl_inv {S X} (I : S -> Prop) (f : S -> X -> S) l st :
  (forall st x, I st -> I (f st x)) -> I st -> I (foldl f st l).
Proof. intros Hf. revert st. induction l; cbn; auto. Qed.

Lemma scan_dir_inv w st searchPath :
  scan_inv st -> scan_inv (Php.scan_dir w st searchPath).
Proof.
  intros H. unfold Php.scan_dir. destruct (Os.ReadDir w searchPath); [|done].
  apply foldl_inv; [|done]. intros. by apply scan_entry_inv.
Qed.

Lemma mark_default_versions v l :
  map Php.Version (Php.mark_default v l) = map Php.Version l.
Proof.
  induction l as [|e l IH]; [done|]. cbn [Php.mark_default].
  destruct (decide (Php.Version e = v)); cbn [map]; [done|]. by rewrite IH.
Qed.

Lemma mark_default_well_formed v l :
  Forall well_formed l -> Forall well_formed (Php.mark_default v l).
Proof.
  induction l as [|e l IH]; intros Hl; [constructor|].
  apply Forall_cons in Hl as [He Hl]. cbn [Php.mark_default].
  destruct (decide (Php.Version e = v)).
  - apply Forall_cons. split; [|done]. destruct He as (H1 & H2 & H3). by repeat split.
  - apply Forall_cons. split; [done|]. by apply IH.
Qed.

(** [sort.Slice] rearranges, it neither drops nor invents. *)
Lemma insert_left_Permutation {X} (less : X -> X -> bool) x l :
  Sort.insert_left less x l ≡ₚ x :: l.
Proof.
  induction l as [|y l IH]; [done|]. cbn [Sort.insert_left].
  destruct (less x y); [|done]. rewrite IH. apply perm_swap.
Qed.

Lemma Slice_Permutation {X} (less : X -> X -> bool) l : Sort.Slice less l ≡ₚ l.
Proof.
  unfold Sort.Slice. rewrite <-Permutation_rev.
  assert (forall prefix,
            foldl (fun prefix x => Sort.insert_left less x prefix) prefix l
            ≡ₚ prefix ++ l) as H.
  { induction l as [|x l IH]; intros prefix; cbn [foldl].
    - by rewrite app_nil_r.
    - rewrite IH, insert_left_Permutation. cbn. apply Permutation_middle. }
  apply (H []).
Qed.

(** The entries the detector returns: pairwise distinct versions, each
    entry well formed. *)
Lemma detectLinuxPHP_inv w :
  NoDup (map Php.Version (Php.detectLinuxPHP w))
  /\ Forall well_formed (Php.detectLinuxPHP w).
Proof.
  unfold Php.detectLinuxPHP.
  pose proof (foldl_inv scan_inv (Php.scan_dir w) Php.searchPaths ([], ∅)
                (fun st x => scan_dir_inv w st x) scan_inv_init) as Hinv.
  destruct (foldl (Php.scan_dir w) ([], ∅) Php.searchPaths) as [versions versionMap].
  destruct Hinv as (Hnd & _ & Hwf). cbn [fst] in *.
  set (marked := match lookPath w "php" with
                 | Some defaultPath => _
                 | None => versions
                 end).
  assert (map Php.Version marked = map Php.Version versions /\ Forall well_formed marked)
    as [Hm Hwfm].
  { subst marked. destruct (lookPath w "php"); [|done].
    destruct (Php.GetPHPVersionFromBinary w s); [done|].
    split; [apply mark_default_versions|by apply mark_default_well_formed]. }
  pose proof (Slice_Permutation Php.newer marked) as Hperm.
  split.
  - rewrite Hperm, Hm. done.
  - by rewrite Hperm.
Qed.

(** C7. [FormatVersion] maps ["8.2.15"] and ["8.2"] to ["8.2"]; a version
    of at least two dot-separated components is mapped to the first two,
    joined by a dot; and in every list [detectLinuxPHP] returns no two
    entries have the same normalized version. *)
Theorem FormatVersion_detect_distinct :
  Php.FormatVersion "8.2.15" = "8.2"
  /\ Php.FormatVersion "8.2" = "8.2"
  /\ (forall v p0 p1 rest,
        GoStrings.Split v "." = p0 :: p1 :: rest ->
        Php.FormatVersion v = p0 +:+ "." +:+ p1)
  /\ (forall w,
        NoDup (map (fun e => Php.FormatVersion (Php.Version e)) (Php.detectLinuxPHP w))).
Proof.
  split; [done|]. split; [done|]. split.
  - intros v p0 p1 rest E. unfold Php.FormatVersion. by rewrite E.
  - intros w. destruct (detectLinuxPHP_inv w) as [Hnd Hwf].
    assert (map (fun e => Php.FormatVersion (Php.Version e)) (Php.detectLinuxPHP w)
            = map Php.Version (Php.detectLinuxPHP w)) as ->; [|done].
    apply map_ext_Forall. eapply Forall_impl; [exact Hwf|]. by intros e (_ & ? & _).
Qed.

Lemma FormatVersion_detect_distinct_witness :
  GoStrings.Split "7.4.33" "." = ["7"; "4"; "33"]
  /\ Php.FormatVersion "7.4.33" = "7.4".
Proof.
  split; [reflexivity|].
  exact (proj1 (proj2 (proj2 FormatVersion_detect_distinct)) "7.4.33" "7" "4" ["33"] eq_refl).
Defined.

(** C8. For a version that is not empty, [GetPHPSocket] is the path
    [/var/run/php/php<version>-fpm.sock]; and for every entry that
    [detectLinuxPHP] returns, [GetPHPSocket] of the entry's version is the
    entry's socket path. *)
Theorem GetPHPSocket_agrees_with_detector :
  (forall v, v <> "" -> Nginx.GetPHPSocket v = "/var/run/php/php" +:+ v +:+ "-fpm.sock")
  /\ (forall w e, e ∈ Php.detectLinuxPHP w ->
        Nginx.GetPHPSocket (Php.Version e) = Php.FPMSocket e).
Proof.
  assert (forall v, v <> "" ->
            Nginx.GetPHPSocket v = "/var/run/php/php" +:+ v +:+ "-fpm.sock") as H.
  { intros v Hv. unfold Nginx.GetPHPSocket. by rewrite decide_False. }
  split; [exact H|].
  intros w e He. destruct (detectLinuxPHP_inv w) as [_ Hwf].
  apply (proj1 (Forall_forall _ _) Hwf) in He as (Hne & _ & ->). by apply H.
Qed.

Lemma GetPHPSocket_agrees_witness :
  Nginx.GetPHPSocket "8.3" = "/var/run/php/php8.3-fpm.sock"
  /\ Forall (fun e => Nginx.GetPHPSocket (Php.Version e) = Php.FPMSocket e)
       (Php.detectLinuxPHP world_php10).
Proof.
  split.
  - apply (proj1 GetPHPSocket_agrees_with_detector "8.3"). discriminate.
  - apply Forall_forall. intros e He.
    exact (proj2 GetPHPSocket_agrees_with_detector world_php10 e He).
Defined.

(** C3 (what the code does where the claim fails). With PHP 8.2 and
    PHP 10.0 installed, [detectLinuxPHP] lists 8.2 before 10.0: the versions
    are compared as byte strings, so the list is not newest-first under
    numeric comparison of major.minor. *)
Theorem detectLinuxPHP_not_numeric_order :
  Php.detectLinuxPHP world_php10 = [php82_entry; php100_entry]
  /\ version_number (Php.Version php82_entry) = Some (8, 2)%N
  /\ version_number (Php.Version php100_entry) = Some (10, 0)%N
  /\ ~ newest_first_numeric (Php.detectLinuxPHP world_php10).
Proof.
  assert (Php.detectLinuxPHP world_php10 = [php82_entry; php100_entry]) as E
    by (vm_compute; reflexivity).
  split; [exact E|]. split; [reflexivity|]. split; [reflexivity|].
  rewrite E. intros H.
  pose proof (H 0 1 php82_entry php100_entry (8, 2)%N (10, 0)%N
                (Nat.lt_0_succ 0) eq_refl eq_refl eq_refl eq_refl) as Hge.
  unfold number_ge in Hge. cbn [fst snd] in Hge. lia.
Qed.

(** ** The DNS resolver manager *)

(** C4 (what the code does where the claim fails). On the configuration
    distributions ship, where the directive is present but commented out,
    [setDNSStubListener "no"] succeeds and writes the content back as it
    was: no line [DNSStubListener=no] is in it. *)
Theorem setDNSStubListener_commented_directive :
  Dns.stub_listener_content "no" shipped_resolved_conf = shipped_resolved_conf
  /\ ("DNSStubListener=no"
        ∉ GoStrings.Split (Dns.stub_listener_content "no" shipped_resolved_conf) LF)
  /\ (Dns.setDNSStubListener "no" world_shipped_conf).1 = None
  /\ Os.ReadFile (Dns.setDNSStubListener "no" world_shipped_conf).2 Dns.resolvedConf
     = inr shipped_resolved_conf.
Proof.
  assert (Dns.stub_listener_content "no" shipped_resolved_conf = shipped_resolved_conf)
    as E by (vm_compute; reflexivity).
  split; [exact E|]. rewrite E. split.
  - intros H. apply (bool_decide_pack _) in H. vm_compute in H. exact H.
  - split; vm_compute; reflexivity.
Qed.

Section Preserves.
Context {A B : Type} (I : World -> Prop).

Lemma preserves_ret (a : A) : preserves I (mret a).
Proof. by intros w. Qed.

Lemma preserves_query (f : World -> A) : preserves I (query f).
Proof. by intros w. Qed.

Lemma preserves_bind (m : M A) (k : A -> M B) :
  preserves I m -> (forall a, preserves I (k a)) -> preserves I (m ≫= k).
Proof.
  intros Hm Hk w Hw. unfold mbind, M_bind, bind.
  specialize (Hm w Hw). destruct (m w) as [a w1]. by apply Hk.
Qed.
End Preserves.

Lemma preserves_or_fail (I : World -> Prop) m msg k :
  preserves I m -> preserves I k -> preserves I (or_fail m msg k).
Proof.
  intros Hm Hk. unfold or_fail. apply preserves_bind; [done|].
  intros [e|]; [apply preserves_ret|done].
Qed.

(** When a guarded step lets the rest run and no error comes out, the step
    has succeeded and the outcome is that of the rest. *)
Lemma or_fail_None m msg k w :
  (or_fail m msg k w).1 = None ->
  (m w).1 = None /\ or_fail m msg k w = k (m w).2.
Proof.
  unfold or_fail, mbind, M_bind, bind. destruct (m w) as [[e|] w1]; cbn; [done|].
  by intros _.
Qed.

(** Following links never stops at a link. *)
Lemma follow_not_link n f p q t :
  Os.follow n f p = Some q -> f !! q <> Some (NLink t).
Proof.
  revert p. induction n as [|n IH]; intros p; cbn [Os.follow].
  - destruct (f !! p) as [[| |t']|] eqn:E; intros [= <-]; congruence.
  - destruct (f !! p) as [[| |t']|] eqn:E; try (intros [= <-]; congruence).
    apply IH.
Qed.

Lemma follow_absent n f p : f !! p = None -> Os.follow n f p = Some p.
Proof. intros H. destruct n; cbn [Os.follow]; by rewrite H. Qed.

(** Writing through links leaves every link in place. *)
Lemma write_through_keeps_link p c f f' x t :
  Os.write_through p c f = inr f' ->
  f !! x = Some (NLink t) -> f' !! x = Some (NLink t).
Proof.
  unfold Os.write_through. destruct (Os.follow Os.hops f p) as [q|] eqn:Hq; [|done].
  intros H Hx.
  assert (q <> x) as Hne.
  { intros ->. by eapply follow_not_link. }
  destruct (f !! q) as [[| |?]|]; simplify_eq; by rewrite lookup_insert_ne.
Qed.

Lemma attempt_fault o effect w :
  fault (Os.attempt o effect w).2 = fault w.
Proof.
  unfold Os.attempt. destruct (fault w _ o); [done|]. by destruct (effect (fs w)).
Qed.

(** An operation whose effect keeps the link keeps the invariant. *)
Lemma attempt_preserves t o effect :
  (forall f f', effect f = inr f' ->
                f !! Dns.etcResolvConf = Some (NLink t) ->
                f' !! Dns.etcResolvConf = Some (NLink t)) ->
  preserves (stub_inv t) (Os.attempt o effect).
Proof.
  intros Heff w [Hnf Hl]. split.
  - intros n o'. by rewrite attempt_fault.
  - unfold Os.attempt. rewrite Hnf. destruct (effect (fs w)) eqn:E; [done|].
    by eapply Heff.
Qed.

Lemma tee_preserves t p stdin :
  preserves (stub_inv t) (Os.RunStdin ["sudo"; "tee"; p] stdin).
Proof.
  apply attempt_preserves. intros f f' E. by eapply write_through_keeps_link.
Qed.

Lemma restart_preserves t :
  preserves (stub_inv t) (Os.Run Dns.cmd_restart_resolved).
Proof. apply attempt_preserves. by intros f f' [= <-]. Qed.

Lemma setDNSStubListener_preserves t value :
  preserves (stub_inv t) (Dns.setDNSStubListener value).
Proof.
  unfold Dns.setDNSStubListener.
  apply preserves_bind; [apply preserves_query|]. intros data.
  destruct (match data with
            | inl err => _
            | inr data => inr data
            end); [apply preserves_ret|].
  apply preserves_or_fail; [apply tee_preserves|apply preserves_ret].
Qed.

Lemma DisableSystemdResolvedStub_preserves t :
  preserves (stub_inv t) Dns.DisableSystemdResolvedStub.
Proof.
  unfold Dns.DisableSystemdResolvedStub.
  apply preserves_or_fail; [apply setDNSStubListener_preserves|].
  apply preserves_or_fail; [apply restart_preserves|].
  apply preserves_bind; [apply preserves_query|]. intros upstreamConf.
  apply preserves_or_fail; [apply tee_preserves|].
  apply preserves_bind; [apply preserves_query|]. intros [info|]; [|apply preserves_ret].
  destruct (Os.IsSymlink info); [|apply preserves_ret].
  apply preserves_bind; [apply preserves_query|]. intros target.
  destruct (GoStrings.Contains target "systemd"); [|apply preserves_ret].
  apply preserves_or_fail; [apply tee_preserves|apply preserves_ret].
Qed.

Section Hoare.
Context {A B : Type}.

Lemma hoare_bind (P : World -> Prop) (m : M A) (Q : A -> World -> Prop)
    (k : A -> M B) (R : B -> World -> Prop) :
  hoare P m Q -> (forall a, hoare (Q a) (k a) R) -> hoare P (m ≫= k) R.
Proof.
  intros Hm Hk w Hw. unfold mbind, M_bind, bind.
  specialize (Hm w Hw). destruct (m w) as [a w1]. by apply Hk.
Qed.

Lemma preserves_hoare (I : World -> Prop) (m : M A) :
  preserves I m -> hoare I m (fun _ => I).
Proof. intros H w Hw. by apply H. Qed.
End Hoare.

(** Without faults, an operation whose effect is defined succeeds and has
    that effect. *)
Lemma attempt_effect o effect w f :
  (forall n o, fault w n o = false) ->
  effect (fs w) = inr f ->
  (Os.attempt o effect w).1 = None
  /\ fs (Os.attempt o effect w).2 = f
  /\ (forall n o', fault (Os.attempt o effect w).2 n o' = false).
Proof.
  intros Hnf E. unfold Os.attempt. rewrite Hnf, E. cbn. repeat split. exact Hnf.
Qed.

Lemma rm_marker_preserves t :
  preserves (stub_inv t) (Os.Run ["sudo"; "rm"; "-f"; Dns.phpParkDnsmasqConf]).
Proof.
  apply attempt_preserves. intros f f' E Hl.
  change (match f !! Dns.phpParkDnsmasqConf with
          | Some NDir => inl (ErrSys "is a directory")
          | _ => inr (delete Dns.phpParkDnsmasqConf f)
          end = @inr error _ f') in E.
  destruct (f !! Dns.phpParkDnsmasqConf) as [[| |?]|]; simplify_eq;
    by rewrite lookup_delete_ne.
Qed.

Lemma rm_link_removes t :
  hoare (stub_inv t) (Os.Run ["sudo"; "rm"; "-f"; Dns.etcResolvConf])
    (fun _ w => (forall n o, fault w n o = false) /\ fs w !! Dns.etcResolvConf = None).
Proof.
  intros w [Hnf Hl]. unfold Os.Run, Os.RunStdin.
  destruct (attempt_effect
              (OpRun ["sudo"; "rm"; "-f"; Dns.etcResolvConf] "")
              (Os.command_effect ["sudo"; "rm"; "-f"; Dns.etcResolvConf] "")
              w (delete Dns.etcResolvConf (fs w)) Hnf) as (_ & -> & Hnf').
  { change (match fs w !! Dns.etcResolvConf with
            | Some NDir => inl (ErrSys "is a directory")
            | _ => inr (delete Dns.etcResolvConf (fs w))
            end = @inr error _ (delete Dns.etcResolvConf (fs w))).
    by rewrite Hl. }
  split; [exact Hnf'|apply lookup_delete_eq].
Qed.

Lemma ln_creates_link :
  hoare (fun w => (forall n o, fault w n o = false) /\ fs w !! Dns.etcResolvConf = None)
    (Os.Run ["sudo"; "ln"; "-sf"; Dns.resolvedStubSymlink; Dns.etcResolvConf])
    (fun r w => r = None
                /\ fs w !! Dns.etcResolvConf = Some (NLink Dns.resolvedStubSymlink)).
Proof.
  intros w [Hnf Hl]. unfold Os.Run, Os.RunStdin.
  destruct (attempt_effect
              (OpRun ["sudo"; "ln"; "-sf"; Dns.resolvedStubSymlink; Dns.etcResolvConf] "")
              (Os.command_effect
                 ["sudo"; "ln"; "-sf"; Dns.resolvedStubSymlink; Dns.etcResolvConf] "")
              w (<[Dns.etcResolvConf := NLink Dns.resolvedStubSymlink]> (fs w)) Hnf)
    as (-> & -> & _).
  { lazy beta iota delta [Os.command_effect].
    rewrite follow_absent by done. cbn [mbind option_bind]. by rewrite Hl. }
  split; [done|apply lookup_insert_eq].
Qed.

Lemma revert_tail_restores t :
  hoare (stub_inv t) revert_tail
    (fun r w => r = None
                /\ Os.Lstat w Dns.etcResolvConf = Some (NLink Dns.resolvedStubSymlink)).
Proof.
  unfold revert_tail.
  eapply hoare_bind; [apply preserves_hoare, rm_marker_preserves|]. intros r1.
  eapply hoare_bind; [apply rm_link_removes|]. intros r2.
  unfold or_fail. eapply hoare_bind; [apply ln_creates_link|].
  intros r w [-> Hl]. done.
Qed.

(** C5, as the code has it. When nothing fails from outside and
    [/etc/resolv.conf] is a symbolic link into the system resolver, after
    [DisableSystemdResolvedStub] and a [RevertSystemdResolvedStub] that
    returns no error the file is a symbolic link to the fixed path
    [/run/systemd/resolve/stub-resolv.conf]; its target is the one it had
    before exactly when that was this path. *)
Theorem revert_after_disable_links_stub (w : World) (t : string) :
  (forall n o, fault w n o = false) ->
  Os.Lstat w Dns.etcResolvConf = Some (NLink t) ->
  GoStrings.Contains t "systemd" = true ->
  let w1 := (Dns.DisableSystemdResolvedStub w).2 in
  let w2 := (Dns.RevertSystemdResolvedStub w1).2 in
  (Dns.RevertSystemdResolvedStub w1).1 = None ->
  Os.Lstat w2 Dns.etcResolvConf = Some (NLink Dns.resolvedStubSymlink)
  /\ (Os.Lstat w2 Dns.etcResolvConf = Some (NLink t) <-> t = Dns.resolvedStubSymlink).
Proof.
  intros Hnf Hl _ w1 w2 Hrev. subst w2.
  assert (stub_inv t w1) as Hinv1.
  { by apply DisableSystemdResolvedStub_preserves. }
  change Dns.RevertSystemdResolvedStub
    with (or_fail (Dns.setDNSStubListener "") "failed to revert resolved.conf"
            (or_fail (Os.Run Dns.cmd_restart_resolved)
               "failed to restart systemd-resolved" revert_tail)) in *.
  destruct (or_fail_None _ _ _ _ Hrev) as [_ E1]. rewrite E1 in Hrev |- *.
  assert (stub_inv t (Dns.setDNSStubListener "" w1).2) as Hinv2.
  { by apply setDNSStubListener_preserves. }
  destruct (or_fail_None _ _ _ _ Hrev) as [_ E2]. rewrite E2.
  assert (stub_inv t (Os.Run Dns.cmd_restart_resolved (Dns.setDNSStubListener "" w1).2).2)
    as Hinv3.
  { by apply restart_preserves. }
  destruct (revert_tail_restores t _ Hinv3) as [_ ->].
  split; [done|]. split; [by intros [= ->]|by intros ->].
Qed.

Lemma revert_after_disable_witness :
  Os.Lstat world_stub Dns.etcResolvConf = Some (NLink Dns.resolvedStubSymlink)
  /\ (Dns.RevertSystemdResolvedStub (Dns.DisableSystemdResolvedStub world_stub).2).1 = None
  /\ Os.Lstat (Dns.RevertSystemdResolvedStub (Dns.DisableSystemdResolvedStub world_stub).2).2
       Dns.etcResolvConf
     = Some (NLink Dns.resolvedStubSymlink).
Proof.
  assert ((Dns.RevertSystemdResolvedStub
             (Dns.DisableSystemdResolvedStub world_stub).2).1 = None) as Hrev
    by (vm_compute; reflexivity).
  split; [reflexivity|]. split; [exact Hrev|].
  refine (proj1 (revert_after_disable_links_stub world_stub Dns.resolvedStubSymlink
                   (fun _ _ => eq_refl) eq_refl _ Hrev)).
  vm_compute. reflexivity.
Defined.

(** C5, as the claim has it, fails where the link pointed elsewhere in the
    system resolver: both steps succeed, and the link that pointed at
    [/run/systemd/resolve/resolv.conf] points at the stub file afterwards. *)
Lemma revert_does_not_restore_other_target :
  Os.Lstat world_uplink Dns.etcResolvConf = Some (NLink Dns.systemdResolveResolvConf)
  /\ GoStrings.Contains Dns.systemdResolveResolvConf "systemd" = true
  /\ (Dns.DisableSystemdResolvedStub world_uplink).1 = None
  /\ (Dns.RevertSystemdResolvedStub (Dns.DisableSystemdResolvedStub world_uplink).2).1 = None
  /\ Os.Lstat (Dns.RevertSystemdResolvedStub (Dns.DisableSystemdResolvedStub world_uplink).2).2
       Dns.etcResolvConf
     <> Some (NLink Dns.systemdResolveResolvConf).
Proof.
  split; [reflexivity|]. split; [reflexivity|].
  split; [vm_compute; reflexivity|]. split; [vm_compute; reflexivity|].
  intros H. vm_compute in H. discriminate H.
Qed.

(** * Further properties of the code *)

(** ** Versions and their detection *)

Lemma span_digits_spec s d r :
  Php.span_digits s = (d, r) -> all_digits d = true /\ s = d +:+ r.
Proof.
  revert d r. induction s as [|c s IH]; intros d r; cbn [Php.span_digits].
  - by intros [= <- <-].
  - destruct (Php.is_digit c) eqn:Hc.
    + destruct (Php.span_digits s) as [d' r'] eqn:E. intros [= <- <-].
      destruct (IH d' r' eq_refl) as [Hd ->]. cbn [all_digits]. by rewrite Hc, Hd.
    + by intros [= <- <-].
Qed.

Lemma all_digits_absent_dot s : all_digits s = true -> absent "." s.
Proof.
  induction s as [|c s IH]; cbn [all_digits absent]; [done|].
  intros [Hc Hs]%andb_true_iff. split; [|auto]. by intros ->.
Qed.

Lemma decimal_all_digits s acc : all_digits s = true -> is_Some (decimal acc s).
Proof.
  revert acc. induction s as [|c s IH]; intros acc; cbn [all_digits decimal]; [by eexists|].
  intros [-> Hs]%andb_true_iff. by apply IH.
Qed.

(** The group of a match is a run of digits, a dot and a run of digits. *)
Lemma match_here_format s v :
  Php.match_here s = Some v ->
  exists major minor,
    v = major +:+ "." +:+ minor /\ major <> "" /\ minor <> ""
    /\ all_digits major = true /\ all_digits minor = true.
Proof.
  unfold Php.match_here. destruct (String.prefix "PHP " s); [|done].
  destruct (Php.span_digits (GoStrings.drop 4 s)) as [major r] eqn:E1.
  apply span_digits_spec in E1 as [Hmajor _].
  destruct major as [|c major]; [done|].
  destruct r as [|dot r']; [done|].
  destruct (decide (dot = "."%char)) as [->|Hdot].
  - destruct (Php.span_digits r') as [minor r''] eqn:E2.
    apply span_digits_spec in E2 as [Hminor _].
    destruct minor as [|c' minor]; [done|]. intros [= <-].
    by exists (String c major), (String c' minor).
  - intros H. exfalso. revert H.
    destruct dot as [[] [] [] [] [] [] [] []]; done.
Qed.

Lemma find_version_format s v :
  Php.find_version s = Some v ->
  exists major minor,
    v = major +:+ "." +:+ minor /\ major <> "" /\ minor <> ""
    /\ all_digits major = true /\ all_digits minor = true.
Proof.
  induction s as [|c s IH]; cbn [Php.find_version].
  - destruct (Php.match_here "") eqn:E; [|done].
    intros [= <-]. by eapply match_here_format.
  - destruct (Php.match_here (String c s)) eqn:E; [|exact IH].
    intros [= <-]. by eapply match_here_format.
Qed.

Lemma binary_version_spec (w : World) (phpPath v : string) :
  Php.GetPHPVersionFromBinary w phpPath = inr v ->
  (exists major minor,
     v = major +:+ "." +:+ minor /\ major <> "" /\ minor <> ""
     /\ all_digits major = true /\ all_digits minor = true)
  /\ Php.FormatVersion v = v
  /\ is_Some (version_number v).
Proof.
  unfold Php.GetPHPVersionFromBinary.
  destruct (Os.Output w [phpPath; "-v"]) as [output|]; [|done].
  destruct (Php.find_version output) as [v'|] eqn:E; [|done]. intros [= <-].
  destruct (find_version_format _ _ E) as (major & minor & -> & Hmaj & Hmin & Hdmaj & Hdmin).
  assert (GoStrings.Split (major +:+ "." +:+ minor) "." = [major; minor]) as Hsplit.
  { change ("." +:+ minor) with (String "." minor).
    rewrite Split_app_sep by by apply all_digits_absent_dot.
    by rewrite Split_absent by by apply all_digits_absent_dot. }
  split; [by exists major, minor|]. split.
  - unfold Php.FormatVersion. by rewrite Hsplit.
  - unfold version_number. rewrite Hsplit.
    destruct major as [|a x]; [done|]. destruct minor as [|b y]; [done|].
    destruct (decimal_all_digits (String a x) 0 Hdmaj) as [n1 ->].
    destruct (decimal_all_digits (String b y) 0 Hdmin) as [n2 ->]. by eexists.
Qed.


(** X1. Whatever version [GetPHPVersionFromBinary] returns is a major and a
    minor number, each a non-empty run of decimal digits, joined by a dot;
    [FormatVersion] leaves such a version as it is, and its numbers can be
    read. *)
Theorem GetPHPVersionFromBinary_two_numbers (w : World) (phpPath v : string) :
  Php.GetPHPVersionFromBinary w phpPath = inr v ->
  (exists major minor,
     v = major +:+ "." +:+ minor /\ major <> "" /\ minor <> ""
     /\ all_digits major = true /\ all_digits minor = true)
  /\ Php.FormatVersion v = v
  /\ is_Some (version_number v).
Proof. apply binary_version_spec. Qed.

Lemma GetPHPVersionFromBinary_two_numbers_witness :
  Php.GetPHPVersionFromBinary world_two_php "/usr/bin/php7.4" = inr "7.4"
  /\ Php.FormatVersion "7.4" = "7.4".
Proof.
  assert (Php.GetPHPVersionFromBinary world_two_php "/usr/bin/php7.4" = inr "7.4") as H
    by (vm_compute; reflexivity).
  split; [exact H|].
  exact (proj1 (proj2 (GetPHPVersionFromBinary_two_numbers _ _ _ H))).
Defined.

Lemma foldl_inv_elem {S X} (I : S -> Prop) (f : S -> X -> S) (l : list X) st :
  (forall st x, x ∈ l -> I st -> I (f st x)) -> I st -> I (foldl f st l).
Proof.
  revert st. induction l as [|x l IH]; intros st Hf Hst; cbn [foldl]; [done|].
  apply IH.
  - intros st' y Hy. apply Hf. by right.
  - apply Hf; [by left|done].
Qed.

Lemma scan_entry_found w dir entries name st :
  dir ∈ Php.searchPaths -> Os.ReadDir w dir = Some entries -> name ∈ entries ->
  Forall (fun e => Php.IsDefault e = false /\ entry_found w e) st.1 ->
  Forall (fun e => Php.IsDefault e = false /\ entry_found w e)
    (Php.scan_entry w dir st name).1.
Proof.
  intros Hdir Hread Hname. destruct st as [versions versionMap]. cbn [fst].
  intros Hall. unfold Php.scan_entry.
  destruct (GoStrings.HasPrefix name "php" && (3 <? String.length name)) eqn:Hpre;
    [|done].
  apply andb_true_iff in Hpre as [Hpre Hlen]. apply Nat.ltb_lt in Hlen.
  destruct (Php.GetPHPVersionFromBinary w (Filepath.Join [dir; name]))
    as [err|version] eqn:Hv; [done|].
  destruct (Php.seen versionMap (Php.FormatVersion version)); [done|].
  cbn [fst]. apply Forall_app. split; [done|]. apply Forall_singleton.
  split; [done|]. exists dir, entries, name. cbn.
  rewrite (proj1 (proj2 (binary_version_spec _ _ _ Hv))). by repeat split.
Qed.

Lemma scanned_found w :
  Forall (fun e => Php.IsDefault e = false /\ entry_found w e) (scanned w).
Proof.
  unfold scanned.
  apply (foldl_inv_elem
           (fun st => Forall (fun e => Php.IsDefault e = false /\ entry_found w e) st.1));
    [|constructor].
  intros st dir Hdir Hst. unfold Php.scan_dir.
  destruct (Os.ReadDir w dir) as [entries|] eqn:Hread; [|done].
  apply (foldl_inv_elem
           (fun st => Forall (fun e => Php.IsDefault e = false /\ entry_found w e) st.1));
    [|done].
  intros st' name Hname. by apply (scan_entry_found w dir entries).
Qed.

Lemma detectLinuxPHP_unfold w :
  Php.detectLinuxPHP w =
  Sort.Slice Php.newer
    (match default_version w with
     | Some v => Php.mark_default v (scanned w)
     | None => scanned w
     end).
Proof.
  unfold Php.detectLinuxPHP, scanned, default_version.
  destruct (foldl (Php.scan_dir w) ([], ∅) Php.searchPaths) as [versions versionMap].
  cbn [fst]. destruct (lookPath w "php"); [|done].
  by destruct (Php.GetPHPVersionFromBinary w s).
Qed.

Lemma mark_default_found w v l :
  Forall (fun e => Php.IsDefault e = false /\ entry_found w e) l ->
  Forall (entry_found w) (Php.mark_default v l).
Proof.
  induction 1 as [|e l [_ He] Hl IH]; [constructor|]. cbn [Php.mark_default].
  destruct (decide (Php.Version e = v)); constructor; try done.
  eapply Forall_impl; [exact Hl|]. by intros ? [_ ?].
Qed.

(** X2. Every entry [detectLinuxPHP] returns stands for a binary found
    under [/usr/bin] or [/usr/local/bin], with a name that begins with [php]
    and has more than three bytes, and that binary reports the entry's
    version. *)
Theorem detectLinuxPHP_entries_found (w : World) (e : Php.PHPVersion) :
  e ∈ Php.detectLinuxPHP w ->
  exists dir entries name,
    (dir = "/usr/bin" \/ dir = "/usr/local/bin")
    /\ Os.ReadDir w dir = Some entries /\ name ∈ entries
    /\ GoStrings.HasPrefix name "php" = true /\ 3 < String.length name
    /\ Php.FullPath e = Filepath.Join [dir; name]
    /\ Php.GetPHPVersionFromBinary w (Php.FullPath e) = inr (Php.Version e).
Proof.
  rewrite detectLinuxPHP_unfold, Slice_Permutation. intros He.
  assert (Forall (entry_found w)
            (match default_version w with
             | Some v => Php.mark_default v (scanned w)
             | None => scanned w
             end)) as Hall.
  { pose proof (scanned_found w) as Hs. destruct (default_version w).
    - by apply mark_default_found.
    - eapply Forall_impl; [exact Hs|]. by intros ? [_ ?]. }
  apply (proj1 (Forall_forall _ _) Hall) in He
    as (dir & entries & name & Hdir & Hread & Hname & Hpre & Hlen & Hpath & Hv).
  exists dir, entries, name. repeat split; try done.
  unfold Php.searchPaths in Hdir.
  apply elem_of_cons in Hdir as [->|Hdir]; [by left|].
  apply list_elem_of_singleton in Hdir as ->. by right.
Qed.

Lemma detectLinuxPHP_entries_found_witness :
  exists dir entries name,
    (dir = "/usr/bin" \/ dir = "/usr/local/bin")
    /\ Os.ReadDir world_php10 dir = Some entries /\ name ∈ entries
    /\ GoStrings.HasPrefix name "php" = true /\ 3 < String.length name
    /\ Php.FullPath php100_entry = Filepath.Join [dir; name]
    /\ Php.GetPHPVersionFromBinary world_php10 (Php.FullPath php100_entry)
       = inr (Php.Version php100_entry).
Proof.
  apply detectLinuxPHP_entries_found.
  assert (Php.detectLinuxPHP world_php10 = [php82_entry; php100_entry]) as ->
    by (vm_compute; reflexivity).
  set_solver.
Defined.

(** X3. When neither search directory can be read, [detectLinuxPHP] returns
    the empty list, and no error. *)
Theorem detectLinuxPHP_unreadable (w : World) :
  Os.ReadDir w "/usr/bin" = None -> Os.ReadDir w "/usr/local/bin" = None ->
  Php.detectLinuxPHP w = [].
Proof.
  intros H1 H2. rewrite detectLinuxPHP_unfold.
  assert (scanned w = []) as ->.
  { unfold scanned, Php.searchPaths. cbn [foldl]. unfold Php.scan_dir.
    by rewrite H1, H2. }
  by destruct (default_version w).
Qed.

Lemma detectLinuxPHP_unreadable_witness :
  Php.detectLinuxPHP (quiet_world ∅) = [].
Proof. apply detectLinuxPHP_unreadable; reflexivity. Defined.

(** Byte order on strings, as [sort.Slice] is handed it. *)
Lemma gt_false_leb a b : GoStrings.gt a b = false <-> String.leb a b = true.
Proof.
  unfold GoStrings.gt, String.ltb, String.leb.
  rewrite (String.compare_antisym a b).
  destruct (String.compare b a); cbn; split; done.
Qed.

Lemma gt_asym a b : GoStrings.gt a b = true -> GoStrings.gt b a = false.
Proof.
  unfold GoStrings.gt, String.ltb.
  rewrite (String.compare_antisym a b). by destruct (String.compare b a).
Qed.

Lemma leb_trans a b c :
  String.leb a b = true -> String.leb b c = true -> String.leb a c = true.
Proof.
  intros H1%Is_true_true H2%Is_true_true. apply Is_true_true.
  change (String.le a c). by trans b.
Qed.

Lemma leb_ne_gt a b : String.leb b a = true -> a <> b -> GoStrings.gt a b = true.
Proof.
  unfold GoStrings.gt, String.ltb, String.leb. intros Hle Hne.
  destruct (String.compare b a) eqn:E; try done.
  apply String.compare_eq_iff in E. congruence.
Qed.

(** The sorted part of the insertion sort, last element first: no element
    is less than one after it in the list. *)
Lemma insert_left_sorted {X} (less : X -> X -> bool) x prefix :
  (forall a b, less a b = true -> less b a = false) ->
  (forall a b c, less a b = false -> less b c = false -> less a c = false) ->
  StronglySorted (fun y z => less y z = false) prefix ->
  StronglySorted (fun y z => less y z = false) (Sort.insert_left less x prefix).
Proof.
  intros Hasym Htrans. induction 1 as [|y prefix Hs IH Hy]; cbn [Sort.insert_left].
  - by repeat constructor.
  - destruct (less x y) eqn:Hxy.
    + constructor; [done|]. rewrite insert_left_Permutation.
      constructor; [by apply Hasym|done].
    + constructor; [by constructor|]. constructor; [done|].
      eapply Forall_impl; [exact Hy|]. intros z Hz. by eapply Htrans.
Qed.

Lemma Slice_sorted {X} (less : X -> X -> bool) l :
  (forall a b, less a b = true -> less b a = false) ->
  (forall a b c, less a b = false -> less b c = false -> less a c = false) ->
  StronglySorted (fun a b => less b a = false) (Sort.Slice less l).
Proof.
  intros Hasym Htrans. unfold Sort.Slice.
  assert (forall prefix,
            StronglySorted (fun y z => less y z = false) prefix ->
            StronglySorted (fun y z => less y z = false)
              (foldl (fun prefix x => Sort.insert_left less x prefix) prefix l)) as H.
  { induction l as [|x l IH]; intros prefix Hp; cbn [foldl]; [done|].
    by apply IH, insert_left_sorted. }
  specialize (H [] (SSorted_nil _)).
  induction H as [|y r Hs IH Hy]; [constructor|]. cbn [rev].
  apply StronglySorted_app_2; [|done|by repeat constructor].
  intros a b Ha ->%list_elem_of_singleton.
  apply (proj1 (Forall_forall _ _) Hy).
  by apply list_elem_of_In, in_rev, list_elem_of_In.
Qed.

Lemma NoDup_fmap_eq {X Y} (f : X -> Y) (l : list X) a b :
  NoDup (map f l) -> a ∈ l -> b ∈ l -> f a = f b -> a = b.
Proof.
  induction l as [|x l IH]; cbn [map]; [by intros _ ?%elem_of_nil|].
  intros [Hx Hl]%NoDup_cons [->|Ha]%elem_of_cons [->|Hb]%elem_of_cons E; try done.
  - destruct Hx. rewrite E. by apply (list_elem_of_fmap_2 f).
  - destruct Hx. rewrite <-E. by apply (list_elem_of_fmap_2 f).
  - by apply IH.
Qed.

(** X4. The list [detectLinuxPHP] returns is in strictly descending byte
    order of the version strings: of two entries, the earlier one has the
    version that Go's [>] on strings finds greater. *)
Theorem detectLinuxPHP_descending_bytes (w : World) :
  StronglySorted (fun a b => GoStrings.gt (Php.Version a) (Php.Version b) = true)
    (Php.detectLinuxPHP w).
Proof.
  destruct (detectLinuxPHP_inv w) as [Hnd _].
  assert (StronglySorted (fun a b => Php.newer b a = false) (Php.detectLinuxPHP w)) as Hs.
  { unfold Php.detectLinuxPHP.
    destruct (foldl (Php.scan_dir w) ([], ∅) Php.searchPaths) as [versions versionMap].
    apply Slice_sorted; unfold Php.newer.
    - intros a b. apply gt_asym.
    - intros a b c H1%gt_false_leb H2%gt_false_leb. apply gt_false_leb.
      by eapply leb_trans. }
  induction Hs as [|e l Hl IH He]; [constructor|].
  cbn [map] in Hnd. apply NoDup_cons in Hnd as [Hfresh Hnd].
  constructor; [by apply IH|].
  apply Forall_forall. intros b Hb.
  apply leb_ne_gt.
  - apply gt_false_leb. by apply (proj1 (Forall_forall _ _) He).
  - intros E. apply Hfresh. rewrite E. by apply (list_elem_of_fmap_2 Php.Version).
Qed.

Lemma mark_default_marked v l e :
  Forall (fun d => Php.IsDefault d = false) l ->
  e ∈ Php.mark_default v l -> Php.IsDefault e = true -> Php.Version e = v.
Proof.
  induction 1 as [|d l Hd Hl IH]; cbn [Php.mark_default]; [by intros ?%elem_of_nil|].
  destruct (decide (Php.Version d = v)) as [E|E].
  - intros [->|He]%elem_of_cons Hdef; [done|].
    apply (proj1 (Forall_forall _ _) Hl) in He. congruence.
  - intros [->|He]%elem_of_cons Hdef; [congruence|by apply IH].
Qed.

Lemma mark_default_marks v l :
  v ∈ map Php.Version l ->
  exists e, e ∈ Php.mark_default v l /\ Php.Version e = v /\ Php.IsDefault e = true.
Proof.
  induction l as [|d l IH]; cbn [map Php.mark_default]; [by intros ?%elem_of_nil|].
  destruct (decide (Php.Version d = v)) as [E|E].
  - intros _. eexists. split; [by left|]. done.
  - intros [Hv|Hv]%elem_of_cons; [congruence|].
    destruct (IH Hv) as (e & He & ? & ?). exists e. split; [by right|done].
Qed.

(** X5. [detectLinuxPHP] marks as default at most one entry, and only an
    entry whose version is the one the [php] on the search path reports; when
    that version is among the detected ones, its entry is marked. *)
Theorem detectLinuxPHP_default_mark (w : World) :
  (forall e, e ∈ Php.detectLinuxPHP w -> Php.IsDefault e = true ->
             default_version w = Some (Php.Version e))
  /\ (forall e1 e2, e1 ∈ Php.detectLinuxPHP w -> e2 ∈ Php.detectLinuxPHP w ->
        Php.IsDefault e1 = true -> Php.IsDefault e2 = true -> e1 = e2)
  /\ (forall v, default_version w = Some v ->
        v ∈ map Php.Version (Php.detectLinuxPHP w) ->
        exists e, e ∈ Php.detectLinuxPHP w /\ Php.Version e = v
                  /\ Php.IsDefault e = true).
Proof.
  assert (Forall (fun d => Php.IsDefault d = false) (scanned w)) as Hunmarked.
  { eapply Forall_impl; [apply scanned_found|]. by intros ? [? _]. }
  assert (forall e, e ∈ Php.detectLinuxPHP w -> Php.IsDefault e = true ->
                    default_version w = Some (Php.Version e)) as Hmark.
  { intros e. rewrite detectLinuxPHP_unfold, Slice_Permutation.
    destruct (default_version w) as [v|].
    - intros He Hdef. by rewrite (mark_default_marked v _ e Hunmarked He Hdef).
    - intros He Hdef. apply (proj1 (Forall_forall _ _) Hunmarked) in He. congruence. }
  split; [exact Hmark|]. split.
  - intros e1 e2 H1 H2 D1 D2.
    apply (NoDup_fmap_eq Php.Version (Php.detectLinuxPHP w));
      [apply detectLinuxPHP_inv|done|done|].
    pose proof (Hmark e1 H1 D1) as E1. pose proof (Hmark e2 H2 D2) as E2. congruence.
  - intros v Hv. rewrite detectLinuxPHP_unfold. rewrite Hv.
    rewrite Slice_Permutation, mark_default_versions. intros Hin.
    destruct (mark_default_marks v _ Hin) as (e & He & Hver & Hdef).
    exists e. split; [by rewrite Slice_Permutation|done].
Qed.

Lemma detectLinuxPHP_default_mark_witness :
  default_version world_two_php = Some "8.3"
  /\ exists e, e ∈ Php.detectLinuxPHP world_two_php
               /\ Php.Version e = "8.3" /\ Php.IsDefault e = true.
Proof.
  split; [vm_compute; reflexivity|].
  apply (proj2 (proj2 (detectLinuxPHP_default_mark world_two_php)) "8.3").
  - vm_compute. reflexivity.
  - assert (map Php.Version (Php.detectLinuxPHP world_two_php) = ["8.3"; "7.4"]) as ->
      by (vm_compute; reflexivity).
    by left.
Defined.

(** X6. [GetDefaultVersion] returns nothing only for the empty list;
    otherwise it returns an entry of the list: the first one marked as
    default, or the first entry when none is marked. *)
Theorem GetDefaultVersion_choice (versions : list Php.PHPVersion) :
  (Php.GetDefaultVersion versions = None <-> versions = [])
  /\ (forall e, Php.GetDefaultVersion versions = Some e ->
        e ∈ versions
        /\ (Php.IsDefault e = true
            \/ (Forall (fun d => Php.IsDefault d = false) versions
                /\ head versions = Some e)))
  /\ (forall d, d ∈ versions -> Php.IsDefault d = true ->
        exists e, Php.GetDefaultVersion versions = Some e /\ Php.IsDefault e = true).
Proof.
  unfold Php.GetDefaultVersion.
  destruct (List.find Php.IsDefault versions) as [f|] eqn:Hfind.
  - apply find_some in Hfind as [Hin Hdef]. apply list_elem_of_In in Hin.
    split; [split; [done|by intros ->; apply elem_of_nil in Hin]|].
    split; [intros e [= <-]; by split; [|left]|].
    intros d _ _. by exists f.
  - assert (Forall (fun d => Php.IsDefault d = false) versions) as Hnone.
    { apply Forall_forall. intros d Hd. apply list_elem_of_In in Hd.
      exact (find_none _ _ Hfind d Hd). }
    split; [by destruct versions|]. split.
    + intros e He. split; [by apply head_Some_elem_of|]. by right.
    + intros d Hd Hdef. apply (proj1 (Forall_forall _ _) Hnone) in Hd. congruence.
Qed.

Lemma GetDefaultVersion_choice_witness :
  exists e, Php.GetDefaultVersion (Php.detectLinuxPHP world_two_php) = Some e
            /\ Php.IsDefault e = true.
Proof.
  apply (proj2 (proj2 (GetDefaultVersion_choice (Php.detectLinuxPHP world_two_php)))
           php83_default_entry); [|reflexivity].
  assert (Php.detectLinuxPHP world_two_php = [php83_default_entry; php74_entry]) as ->
    by (vm_compute; reflexivity).
  by left.
Defined.

(** X7. [ValidatePHPVersion] is exact membership of the version string
    among the entries' versions; against the list of [detectLinuxPHP] only a
    version in two-component form can validate, so a version with a patch
    number never does. *)
Theorem ValidatePHPVersion_exact (version : string) :
  (forall l, Php.ValidatePHPVersion version l = true <-> version ∈ map Php.Version l)
  /\ (forall w, Php.ValidatePHPVersion version (Php.detectLinuxPHP w) = true ->
        Php.FormatVersion version = version).
Proof.
  assert (forall l, Php.ValidatePHPVersion version l = true
                    <-> version ∈ map Php.Version l) as H.
  { intros l. unfold Php.ValidatePHPVersion. rewrite existsb_exists, list_elem_of_fmap.
    split.
    - intros (e & He%list_elem_of_In & Hv%bool_decide_eq_true). by exists e.
    - intros (e & -> & He). exists e. split; [by apply list_elem_of_In|].
      by apply bool_decide_eq_true. }
  split; [exact H|].
  intros w Hv. apply H, list_elem_of_fmap in Hv as (e & -> & He).
  destruct (detectLinuxPHP_inv w) as [_ Hwf].
  by apply (proj1 (Forall_forall _ _) Hwf) in He as (_ & ? & _).
Qed.

Lemma ValidatePHPVersion_exact_witness :
  Php.ValidatePHPVersion "8.3" (Php.detectLinuxPHP world_two_php) = true
  /\ Php.FormatVersion "8.3" = "8.3"
  /\ Php.ValidatePHPVersion "8.3.6" (Php.detectLinuxPHP world_two_php) = false.
Proof.
  assert (Php.ValidatePHPVersion "8.3" (Php.detectLinuxPHP world_two_php) = true) as H
    by (vm_compute; reflexivity).
  split; [exact H|]. split.
  - exact (proj2 (ValidatePHPVersion_exact "8.3") world_two_php H).
  - vm_compute. reflexivity.
Defined.

(** ** Services: what the runs of child processes look like *)

Lemma emits_since {A} (m : M A) (P : A -> list (op * bool) -> Prop) w :
  emits m P ->
  trace (m w).2 = trace w ++ since w (m w).2 /\ P (m w).1 (since w (m w).2).
Proof.
  intros H. destruct (H w) as (seg & Ht & HP).
  assert (since w (m w).2 = seg) as ->; [|done].
  unfold since. rewrite Ht. apply drop_app_length.
Qed.

Lemma emits_run argv :
  emits (Os.Run argv) (fun r seg => seg = [(OpRun argv "", bool_decide (r = None))]).
Proof. apply emits_attempt. Qed.

Lemma ReloadNginx_outcomes :
  emits Services.ReloadNginx
    (fun r seg =>
       (seg = [(OpRun Services.cmd_systemctl_reload "", true)] /\ r = None)
       \/ exists ok,
            seg = [(OpRun Services.cmd_systemctl_reload "", false);
                   (OpRun Services.cmd_nginx_reload "", ok)]
            /\ (r = None <-> ok = true)).
Proof.
  unfold Services.ReloadNginx.
  eapply emits_bind; [apply emits_run|].
  intros [e|] seg ->.
  - eapply emits_or_fail; [apply emits_run| |].
    + intros e' seg' ->. right. exists false. by rewrite bool_decide_eq_false_2.
    + intros seg' ->. apply emits_ret. right. exists true.
      by rewrite bool_decide_eq_false_2, bool_decide_eq_true_2.
  - apply emits_ret. left. by rewrite bool_decide_eq_true_2.
Qed.

(** X8. [ReloadNginx] asks the service manager first and signals the proxy
    binary only when that fails: a run is either the one successful
    [systemctl reload nginx], or the failed one followed by [nginx -s reload],
    whose outcome is then the result. *)
Theorem ReloadNginx_fallback (w : World) :
  let r := Services.ReloadNginx w in
  (since w r.2 = [(OpRun ["systemctl"; "reload"; "nginx"] "", true)] /\ r.1 = None)
  \/ exists ok,
       since w r.2 = [(OpRun ["systemctl"; "reload"; "nginx"] "", false);
                      (OpRun ["nginx"; "-s"; "reload"] "", ok)]
       /\ (r.1 = None <-> ok = true).
Proof. exact (proj2 (emits_since _ _ w ReloadNginx_outcomes)). Qed.

Lemma StartPHPFPM_outcomes version :
  emits (Services.StartPHPFPM version) (start_outcomes ("php" +:+ version +:+ "-fpm")).
Proof.
  unfold Services.StartPHPFPM.
  eapply emits_bind; [apply emits_run|].
  intros [e|] seg ->.
  - eapply emits_or_fail; [apply emits_run| |].
    + intros e' seg' ->. right; left. by rewrite !bool_decide_eq_false_2.
    + intros seg' ->. eapply emits_bind; [apply emits_run|].
      intros r seg'' ->. apply emits_ret. right; right. eexists.
      by rewrite bool_decide_eq_false_2, bool_decide_eq_true_2.
  - apply emits_ret. left. by rewrite bool_decide_eq_true_2.
Qed.

Lemma StartNginx_outcomes : emits Services.StartNginx (start_outcomes "nginx").
Proof.
  unfold Services.StartNginx.
  eapply emits_bind; [apply emits_run|].
  intros [e|] seg ->.
  - eapply emits_or_fail; [apply emits_run| |].
    + intros e' seg' ->. right; left. by rewrite !bool_decide_eq_false_2.
    + intros seg' ->. eapply emits_bind; [apply emits_run|].
      intros r seg'' ->. apply emits_ret. right; right. eexists.
      by rewrite bool_decide_eq_false_2, bool_decide_eq_true_2.
  - apply emits_ret. left. by rewrite bool_decide_eq_true_2.
Qed.

(** X9. [StartNginx] and [StartPHPFPM] start a service only when
    [systemctl is-active] fails, return an error only when the start itself
    fails, and try to enable the service at boot only after a successful
    start, whatever comes of it. *)
Theorem Start_service_outcomes (w : World) (version : string) :
  start_outcomes "nginx" (Services.StartNginx w).1 (since w (Services.StartNginx w).2)
  /\ start_outcomes ("php" +:+ version +:+ "-fpm")
       (Services.StartPHPFPM version w).1 (since w (Services.StartPHPFPM version w).2).
Proof.
  split.
  - exact (proj2 (emits_since _ _ w StartNginx_outcomes)).
  - exact (proj2 (emits_since _ _ w (StartPHPFPM_outcomes version))).
Qed.

Lemma start_outcomes_summary service r seg :
  start_outcomes service r seg ->
  map fst (filter (fun e => is_active_check e = true) seg)
  = [OpRun ["systemctl"; "is-active"; service] ""]
  /\ (r = None <-> Forall (fun e => failed_start e = false) seg).
Proof.
  intros [[-> ->]|[[-> Hr]|(ok & -> & ->)]]; (split; [done|]).
  - split; [by repeat constructor|done].
  - split; [done|]. intros H. apply Forall_cons in H as [_ H].
    by apply Forall_cons in H as [H _].
  - split; [by repeat constructor|done].
Qed.

Lemma ensure_each_emits versions errors :
  emits (Services.ensure_each versions errors)
    (fun errs seg =>
       map fst (filter (fun e => is_active_check e = true) seg)
       = map active_check_of versions
       /\ length errors <= length errs
       /\ (length errs = length errors
           <-> Forall (fun e => failed_start e = false) seg)).
Proof.
  revert errors. induction versions as [|version rest IH]; intros errors;
    cbn [Services.ensure_each].
  - apply emits_ret. by repeat split.
  - eapply emits_bind; [apply StartPHPFPM_outcomes|].
    intros r seg [Hchecks Hres]%start_outcomes_summary.
    eapply emits_weaken; [apply IH|].
    intros errs seg' (Hchecks' & Hlen & Hiff).
    rewrite filter_app, map_app, Hchecks, Hchecks', Forall_app, <-Hres, <-Hiff.
    split; [done|]. destruct r as [e|].
    + rewrite length_app in *. cbn in *. split; [lia|]. split; [lia|by intros []].
    + split; [done|]. by split; [|intros []].
Qed.

(** X10. [EnsurePHPFPMRunning] goes through the whole list: every entry's
    service is checked, in the order of the list, also after a failure; and
    it returns an error exactly when some start has failed. *)
Theorem EnsurePHPFPMRunning_all_checked (w : World) (versions : list string) :
  let r := Services.EnsurePHPFPMRunning versions w in
  map fst (filter (fun e => is_active_check e = true) (since w r.2))
  = map active_check_of versions
  /\ (r.1 = None <-> Forall (fun e => failed_start e = false) (since w r.2)).
Proof.
  assert (emits (Services.EnsurePHPFPMRunning versions)
            (fun r seg =>
               map fst (filter (fun e => is_active_check e = true) seg)
               = map active_check_of versions
               /\ (r = None <-> Forall (fun e => failed_start e = false) seg))) as H.
  { unfold Services.EnsurePHPFPMRunning.
    eapply emits_bind; [apply ensure_each_emits|].
    intros errs seg (Hchecks & _ & Hiff). apply emits_ret. rewrite app_nil_r.
    split; [done|]. rewrite <-Hiff. cbn [length].
    destruct errs; cbn; split; done. }
  exact (proj2 (emits_since _ _ w H)).
Qed.

Lemma run_each_emits cmds :
  emits (Php.run_each cmds)
    (fun _ seg => map fst seg = map (fun cmd => OpRun cmd "") cmds).
Proof.
  induction cmds as [|cmd cmds IH]; cbn [Php.run_each].
  - by apply emits_ret.
  - eapply emits_bind; [apply emits_run|]. intros r seg ->.
    eapply emits_weaken; [apply IH|]. intros [] seg' Hseg. cbn. by rewrite Hseg.
Qed.

(** X11. [InstallPHP] stops with an error at the first of its three first
    steps that fails (adding the repository, refreshing the index, installing
    the pool package) and runs nothing after it; once the three have
    succeeded it tries each of the seven extension packages in turn and
    returns no error, whatever their outcomes. *)
Theorem InstallPHP_fatal_and_optional (w : World) (version : string) :
  let r := Php.InstallPHP version w in
  let add := OpRun ["add-apt-repository"; "-y"; "ppa:ondrej/php"] "" in
  let update := OpRun ["apt-get"; "update"] "" in
  let pool := apt_install ("php" +:+ version +:+ "-fpm") in
  (r.1 <> None /\ since w r.2 = [(add, false)])
  \/ (r.1 <> None /\ since w r.2 = [(add, true); (update, false)])
  \/ (r.1 <> None /\ since w r.2 = [(add, true); (update, true); (pool, false)])
  \/ (r.1 = None
      /\ exists optional,
           since w r.2 = [(add, true); (update, true); (pool, true)] ++ optional
           /\ map fst optional = map apt_install (Php.extensions version)).
Proof.
  intros r add update pool. subst r.
  refine (proj2 (emits_since (Php.InstallPHP version)
    (fun r seg =>
       (r <> None /\ seg = [(add, false)])
       \/ (r <> None /\ seg = [(add, true); (update, false)])
       \/ (r <> None /\ seg = [(add, true); (update, true); (pool, false)])
       \/ (r = None
           /\ exists optional,
                seg = [(add, true); (update, true); (pool, true)] ++ optional
                /\ map fst optional = map apt_install (Php.extensions version)))
    w _)).
  unfold Php.InstallPHP.
  eapply emits_or_fail; [apply emits_run| |].
  { intros e seg ->. by left. }
  intros s1 ->. eapply emits_or_fail; [apply emits_run| |].
  { intros e seg ->. right; left. by cbn. }
  intros s2 ->. eapply emits_or_fail; [apply emits_run| |].
  { intros e seg ->. right; right; left. by cbn. }
  intros s3 ->. eapply emits_bind; [apply run_each_emits|].
  intros [] optional Hopt. apply emits_ret. right; right; right.
  split; [done|]. exists optional. rewrite app_nil_r. cbn.
  split; [done|]. rewrite Hopt. by rewrite map_map.
Qed.

Lemma validate_reload_emits (k := mret None : M (option error)) :
  emits (or_fail Services.TestNginxConfig "nginx config test failed"
           (or_fail Services.ReloadNginx "failed to reload nginx" k))
    validate_reload_shape.
Proof.
  eapply emits_or_fail; [apply TestNginxConfig_emits| |].
  { intros e seg ->. by left. }
  intros s1 ->. eapply emits_or_fail; [apply ReloadNginx_outcomes| |].
  - intros e seg [[-> ?]|(ok & -> & Hok)]; [done|].
    right; right. exists ok. cbn. split; [done|]. split; [done|].
    intros ->. discriminate (proj2 Hok eq_refl).
  - intros seg [[-> _]|(ok & -> & Hok)]; apply emits_ret; rewrite app_nil_r; cbn.
    + by right; left.
    + right; right. exists ok. split; [done|]. split; [by apply Hok|done].
Qed.

Lemma remove_if_exists_quiet path :
  emits (Services.remove_if_exists path) (fun _ seg => quiet seg).
Proof.
  unfold Services.remove_if_exists.
  eapply emits_bind; [by apply emits_attempt_quiet|].
  intros r seg Hq. apply emits_ret. by rewrite app_nil_r.
Qed.

Lemma RemoveNginxConfig_shape siteName :
  emits (Services.RemoveNginxConfig siteName) files_then_reload.
Proof.
  unfold Services.RemoveNginxConfig.
  eapply emits_or_fail; [apply remove_if_exists_quiet| |].
  { intros e seg Hq. exists seg. split; [done|]. by left. }
  intros s1 H1. eapply emits_or_fail; [apply remove_if_exists_quiet| |].
  { intros e seg Hq. exists (s1 ++ seg). split; [by apply quiet_app|]. by left. }
  intros s2 H2. eapply emits_weaken; [apply validate_reload_emits|].
  intros r t Ht. exists (s1 ++ s2). split; [by apply quiet_app|].
  right. exists t. by rewrite app_assoc.
Qed.

Lemma DeployNginxConfig_full_shape siteName configPath :
  emits (Services.DeployNginxConfig siteName configPath) files_then_reload.
Proof.
  unfold Services.DeployNginxConfig.
  eapply emits_or_fail; [apply copyFile_quiet| |].
  { intros e seg Hq. exists seg. split; [done|]. by left. }
  intros s1 H1.
  eapply emits_or_fail; [apply createSymlink_quiet| |].
  { intros e seg Hq. exists (s1 ++ seg). split; [by apply quiet_app|]. by left. }
  intros s2 H2.
  apply emits_query_bind. intros st.
  eapply (emits_bind _ _ (fun _ seg => quiet seg)).
  { destruct st; [by apply emits_attempt_quiet|by apply emits_ret; constructor]. }
  intros r3 s3 H3.
  eapply emits_weaken; [apply validate_reload_emits|].
  intros r t Ht. exists (s1 ++ s2 ++ s3). split; [by repeat apply quiet_app|].
  right. exists t. by rewrite <-!app_assoc.
Qed.

(** In a run of that form a reload comes only after a successful syntax
    check, and a failed syntax check is followed by no reload. *)
Lemma files_then_reload_order r seg :
  files_then_reload r seg ->
  (forall before e after,
     seg = before ++ e :: after -> is_reload e = true ->
     (OpRun Services.cmd_nginx_test "", true) ∈ before)
  /\ (forall v, v ∈ seg -> is_validation v = true -> v.2 = false ->
        r <> None /\ forall e, e ∈ seg -> is_reload e = false)
  /\ (r = None ->
      exists before last,
        seg = before ++ [last] /\ is_reload last = true /\ last.2 = true
        /\ (OpRun Services.cmd_nginx_test "", true) ∈ before).
Proof.
  intros (q & Hq & [[-> Hr]|(t & -> & Ht)]).
  { split; [|split; [|done]].
    - intros before e after E He. exfalso.
      apply (quiet_no_reload _ e Hq He). rewrite E. set_solver.
    - intros v Hv Hval _. exfalso. by apply (quiet_no_validation _ v Hq Hval). }
  split; [|split].
  - intros before e after E He.
    assert (exists rl, t = (OpRun Services.cmd_nginx_test "", true) :: rl) as [rl ->].
    { destruct Ht as [[-> _]|[[-> _]|(ok & -> & _)]]; [|by eexists..].
      exfalso. assert (e ∈ q ++ [(OpRun Services.cmd_nginx_test "", false)]) as Hin
        by (rewrite E; set_solver).
      apply elem_of_app in Hin as [Hin|Hin%list_elem_of_singleton].
      - by apply (quiet_no_reload _ e Hq He).
      - by subst e. }
    eapply split_after_marker; [exact E| |].
    + by apply quiet_no_reload.
    + by intros ->.
  - intros v Hv Hval Hfail.
    apply elem_of_app in Hv as [Hv|Hv];
      [exfalso; by apply (quiet_no_validation _ v Hq Hval)|].
    destruct Ht as [[-> Hr]|[[-> _]|(ok & -> & _)]].
    + split; [done|]. intros e [He|He%list_elem_of_singleton]%elem_of_app.
      * by apply (proj1 (Forall_forall _ _) Hq) in He as [_ ?].
      * by subst e.
    + exfalso. repeat (apply elem_of_cons in Hv as [->|Hv]; [done|]).
      by apply elem_of_nil in Hv.
    + exfalso. repeat (apply elem_of_cons in Hv as [->|Hv]; [done|]).
      by apply elem_of_nil in Hv.
  - intros ->. destruct Ht as [[_ ?]|[[-> _]|(ok & -> & Hok)]]; [done| |].
    + exists (q ++ [(OpRun Services.cmd_nginx_test "", true)]),
        (OpRun Services.cmd_systemctl_reload "", true).
      rewrite <-app_assoc. repeat split; try done.
      apply elem_of_app. right. by left.
    + rewrite (proj1 Hok eq_refl).
      exists (q ++ [(OpRun Services.cmd_nginx_test "", true);
                    (OpRun Services.cmd_systemctl_reload "", false)]),
        (OpRun Services.cmd_nginx_reload "", true).
      rewrite <-app_assoc. repeat split; try done.
      apply elem_of_app. right. by left.
Qed.

(** X12. In every run of [RemoveNginxConfig] a reload is attempted only
    after a successful syntax check in the same run; a failed syntax check
    ends the run with an error and without a reload; and the run returns no
    error only when a successful reload is the last thing it did. *)
Theorem RemoveNginxConfig_validates_before_reload (w : World) (siteName : string) :
  let r := Services.RemoveNginxConfig siteName w in
  (forall before e after,
     since w r.2 = before ++ e :: after -> is_reload e = true ->
     (OpRun ["nginx"; "-t"] "", true) ∈ before)
  /\ (forall v, v ∈ since w r.2 -> is_validation v = true -> v.2 = false ->
        r.1 <> None /\ forall e, e ∈ since w r.2 -> is_reload e = false)
  /\ (r.1 = None ->
      exists before last,
        since w r.2 = before ++ [last] /\ is_reload last = true /\ last.2 = true
        /\ (OpRun ["nginx"; "-t"] "", true) ∈ before).
Proof.
  apply files_then_reload_order.
  exact (proj2 (emits_since _ _ w (RemoveNginxConfig_shape siteName))).
Qed.

(** X13. [DeployNginxConfig] returns no error only when the syntax check
    has succeeded and a reload has succeeded after it, as the last thing the
    run did. *)
Theorem DeployNginxConfig_success_means_reloaded
    (w : World) (siteName configPath : string) :
  let r := Services.DeployNginxConfig siteName configPath w in
  r.1 = None ->
  exists before last,
    since w r.2 = before ++ [last] /\ is_reload last = true /\ last.2 = true
    /\ (OpRun ["nginx"; "-t"] "", true) ∈ before.
Proof.
  refine (proj2 (proj2 (files_then_reload_order _ _ _))).
  exact (proj2 (emits_since _ _ w (DeployNginxConfig_full_shape siteName configPath))).
Qed.

Lemma RemoveNginxConfig_validates_witness :
  let r := Services.RemoveNginxConfig "blog" (quiet_world ∅) in
  r.1 = None
  /\ exists before last,
       since (quiet_world ∅) r.2 = before ++ [last]
       /\ is_reload last = true /\ last.2 = true
       /\ (OpRun ["nginx"; "-t"] "", true) ∈ before.
Proof.
  intros r.
  assert (r.1 = None) as H by (vm_compute; reflexivity).
  split; [exact H|].
  exact (proj2 (proj2 (RemoveNginxConfig_validates_before_reload (quiet_world ∅) "blog")) H).
Defined.

Lemma DeployNginxConfig_success_witness :
  let w := quiet_world {[ "/home/u/.phppark/nginx/blog.conf" := NFile "server {}" ]} in
  let r := Services.DeployNginxConfig "blog" "/home/u/.phppark/nginx/blog.conf" w in
  r.1 = None
  /\ exists before last,
       since w r.2 = before ++ [last] /\ is_reload last = true /\ last.2 = true
       /\ (OpRun ["nginx"; "-t"] "", true) ∈ before.
Proof.
  intros w r.
  assert (r.1 = None) as H by (vm_compute; reflexivity).
  split; [exact H|].
  exact (DeployNginxConfig_success_means_reloaded w "blog" _ H).
Defined.

(** ** Services and generator: what is in the file tree afterwards *)

(** An operation that returns no error has had its effect; one that returns
    an error has left the file tree alone. *)
Lemma attempt_result o effect w :
  match (Os.attempt o effect w).1 with
  | None => effect (fs w) = inr (fs (Os.attempt o effect w).2)
  | Some _ => fs (Os.attempt o effect w).2 = fs w
  end.
Proof.
  unfold Os.attempt. destruct (fault w _ o); [done|]. by destruct (effect (fs w)).
Qed.

Lemma attempt_None o effect w :
  (Os.attempt o effect w).1 = None ->
  effect (fs w) = inr (fs (Os.attempt o effect w).2).
Proof. intros H. pose proof (attempt_result o effect w) as R. by rewrite H in R. Qed.

(** Putting something that is not a link where a walk along links ends
    does not change the walk. *)
Lemma follow_insert n f p q x :
  Os.follow n f p = Some q -> Os.IsSymlink x = false ->
  Os.follow n (<[q := x]> f) p = Some q.
Proof.
  intros Hq Hx. revert p Hq. induction n as [|n IH]; intros p; cbn [Os.follow].
  - destruct (f !! p) as [[| |t]|] eqn:E; intros [= <-];
      rewrite lookup_insert_eq; by destruct x.
  - destruct (f !! p) as [[| |t]|] eqn:E;
      try (intros [= <-]; rewrite lookup_insert_eq; by destruct x).
    intros Hq. assert (q <> p) as Hne.
    { intros ->. by eapply follow_not_link. }
    rewrite lookup_insert_ne, E by done. by apply IH.
Qed.

(** What is written through a path is read back through it. *)
Lemma read_after_write_through p c f (w' : World) :
  Os.write_through p c f = inr (fs w') -> Os.ReadFile w' p = inr c.
Proof.
  unfold Os.write_through, Os.ReadFile.
  destruct (Os.follow Os.hops f p) as [q|] eqn:Hq; [|done].
  intros H. assert (fs w' = <[q := NFile c]> f) as ->.
  { by destruct (f !! q) as [[| |?]|]; simplify_eq. }
  rewrite (follow_insert _ _ _ _ (NFile c) Hq eq_refl). by rewrite lookup_insert_eq.
Qed.



(** X15. [copyFile] on a source that cannot be read returns the read error
    and attempts nothing; when it returns no error, reading the destination
    gives the bytes that reading the source gave before. *)
Theorem copyFile_copies (w : World) (src dst : string) :
  (forall e, Os.ReadFile w src = inl e -> Services.copyFile src dst w = (Some e, w))
  /\ ((Services.copyFile src dst w).1 = None ->
      exists content,
        Os.ReadFile w src = inr content
        /\ Os.ReadFile (Services.copyFile src dst w).2 dst = inr content).
Proof.
  unfold Services.copyFile, mbind, M_bind, bind, query. split.
  - by intros e ->.
  - destruct (Os.ReadFile w src) as [e|content]; [done|].
    destruct (Os.MkdirAll (Filepath.Dir dst) w) as [[e|] w1]; [done|].
    intros H. exists content. split; [done|].
    apply attempt_None in H. by eapply read_after_write_through.
Qed.

Lemma copyFile_copies_witness :
  let w := quiet_world {[ "/home/u/.phppark/nginx/blog.conf" := NFile "server {}" ]} in
  let r := Services.copyFile "/home/u/.phppark/nginx/blog.conf"
             "/etc/nginx/sites-available/blog.conf" w in
  r.1 = None
  /\ exists content,
       Os.ReadFile w "/home/u/.phppark/nginx/blog.conf" = inr content
       /\ Os.ReadFile r.2 "/etc/nginx/sites-available/blog.conf" = inr content.
Proof.
  intros w r.
  assert (r.1 = None) as H by (vm_compute; reflexivity).
  split; [exact H|]. exact (proj2 (copyFile_copies w _ _) H).
Defined.

(** X16. When [WriteConfigFile] returns no error, reading the path gives
    the content written. *)
Theorem WriteConfigFile_written (w : World) (configPath content : string) :
  (Nginx.WriteConfigFile configPath content w).1 = None ->
  Os.ReadFile (Nginx.WriteConfigFile configPath content w).2 configPath = inr content.
Proof.
  unfold Nginx.WriteConfigFile. intros H.
  destruct (or_fail_None _ _ _ _ H) as [_ E1]. rewrite E1 in H |- *.
  destruct (or_fail_None _ _ _ _ H) as [H2 E2]. rewrite E2. cbn.
  apply attempt_None in H2. by eapply read_after_write_through.
Qed.

Lemma WriteConfigFile_written_witness :
  Os.ReadFile
    (Nginx.WriteConfigFile "/home/u/.phppark/nginx/blog.conf" "server {}" (quiet_world ∅)).2
    "/home/u/.phppark/nginx/blog.conf" = inr "server {}".
Proof.
  apply WriteConfigFile_written. vm_compute. reflexivity.
Defined.

(** A removal that reports no error leaves nothing at the path. *)
Lemma remove_if_exists_gone path w :
  (Services.remove_if_exists path w).1 = None ->
  fs (Services.remove_if_exists path w).2 !! path = None.
Proof.
  unfold Services.remove_if_exists, mbind, M_bind, bind, Os.Remove.
  pose proof (attempt_result (OpRemove path) (Os.remove_node path) w) as R.
  destruct (Os.attempt (OpRemove path) (Os.remove_node path) w) as [[e|] w1] eqn:E;
    cbn in *.
  - destruct e; try done. intros _. rewrite R.
    unfold Os.attempt in E. destruct (fault w _ _); [done|].
    unfold Os.remove_node in E.
    destruct (fs w !! path) as [[| |?]|]; [|done..].
    + by destruct (Os.children (fs w) path).
  - intros _. unfold Os.remove_node in R.
    assert (fs w1 = delete path (fs w)) as ->; [|apply lookup_delete_eq].
    destruct (fs w !! path) as [[| |?]|]; [|congruence..].
    destruct (Os.children (fs w) path); congruence.
Qed.

(** Removals, the syntax check and the reload put nothing at a path where
    nothing is. *)
Lemma attempt_keeps_absent q o effect :
  (forall f f', effect f = inr f' -> f !! q = None -> f' !! q = None) ->
  preserves (fun w => fs w !! q = None) (Os.attempt o effect).
Proof.
  intros Heff w Hq. pose proof (attempt_result o effect w) as R.
  destruct (Os.attempt o effect w).1; [by rewrite R|]. by eapply Heff.
Qed.

Lemma remove_if_exists_keeps_absent q path :
  preserves (fun w => fs w !! q = None) (Services.remove_if_exists path).
Proof.
  unfold Services.remove_if_exists.
  apply preserves_bind; [|intros r; apply preserves_ret].
  apply attempt_keeps_absent. intros f f'. unfold Os.remove_node.
  intros H Hq.
  assert (f' = delete path f) as ->.
  { destruct (f !! path) as [[| |?]|]; [|by simplify_eq..].
    destruct (Os.children f path); by simplify_eq. }
  destruct (decide (path = q)) as [->|Hne];
    [apply lookup_delete_eq|by rewrite lookup_delete_ne].
Qed.

Lemma validate_reload_keeps_absent q (k := mret None : M (option error)) :
  preserves (fun w => fs w !! q = None)
    (or_fail Services.TestNginxConfig "nginx config test failed"
       (or_fail Services.ReloadNginx "failed to reload nginx" k)).
Proof.
  assert (forall argv, Os.command_effect argv "" = inr ->
                       preserves (fun w => fs w !! q = None) (Os.Run argv)) as Hrun.
  { intros argv Hid. apply attempt_keeps_absent. intros f f'. rewrite Hid.
    by intros [= <-]. }
  apply preserves_or_fail.
  - unfold Services.TestNginxConfig.
    apply preserves_or_fail; [by apply Hrun|apply preserves_ret].
  - apply preserves_or_fail; [|apply preserves_ret].
    unfold Services.ReloadNginx.
    apply preserves_bind; [by apply Hrun|]. intros [e|]; [|apply preserves_ret].
    apply preserves_or_fail; [by apply Hrun|apply preserves_ret].
Qed.

Lemma or_fail_step m msg k w :
  (m w).1 = None -> or_fail m msg k w = k (m w).2.
Proof.
  unfold or_fail, mbind, M_bind, bind. destruct (m w) as [[e|] w1]; cbn; [done|].
  by intros _.
Qed.

(** Without faults, removing what is not there reports no error and changes
    nothing in the file tree; so does a child process that does not touch
    it. *)
Lemma remove_if_exists_absent path w :
  (forall n o, fault w n o = false) -> fs w !! path = None ->
  (Services.remove_if_exists path w).1 = None
  /\ fs (Services.remove_if_exists path w).2 = fs w
  /\ (forall n o, fault (Services.remove_if_exists path w).2 n o = false).
Proof.
  intros Hnf Hp.
  unfold Services.remove_if_exists, mbind, M_bind, bind, Os.Remove, Os.attempt.
  rewrite Hnf. unfold Os.remove_node. by rewrite Hp.
Qed.

Lemma run_idle argv w :
  Os.command_effect argv "" = inr ->
  (forall n o, fault w n o = false) ->
  (Os.Run argv w).1 = None
  /\ fs (Os.Run argv w).2 = fs w
  /\ (forall n o, fault (Os.Run argv w).2 n o = false).
Proof.
  intros Hid Hnf. unfold Os.Run, Os.RunStdin, Os.attempt. by rewrite Hnf, Hid.
Qed.

(** X17. When [RemoveNginxConfig] returns no error, neither the enabled
    entry nor the available file of the site is there any more; that they
    were missing to begin with is no error. *)
Theorem RemoveNginxConfig_removes (w : World) (siteName : string) :
  let enabledPath := Filepath.Join ["/etc/nginx/sites-enabled"; siteName +:+ ".conf"] in
  let availablePath := Filepath.Join ["/etc/nginx/sites-available"; siteName +:+ ".conf"] in
  let r := Services.RemoveNginxConfig siteName w in
  (r.1 = None -> Os.Lstat r.2 enabledPath = None /\ Os.Lstat r.2 availablePath = None)
  /\ ((forall n o, fault w n o = false) ->
      Os.Lstat w enabledPath = None -> Os.Lstat w availablePath = None ->
      r.1 = None /\ fs r.2 = fs w).
Proof.
  intros enabledPath availablePath r. subst r. unfold Os.Lstat. split.
  - unfold Services.RemoveNginxConfig. intros H.
    fold enabledPath availablePath in H |- *.
    destruct (or_fail_None _ _ _ _ H) as [H1 E1]. rewrite E1 in H |- *.
    destruct (or_fail_None _ _ _ _ H) as [H2 E2]. rewrite E2.
    apply remove_if_exists_gone in H1. apply remove_if_exists_gone in H2.
    split; apply validate_reload_keeps_absent; [|done].
    by apply remove_if_exists_keeps_absent.
  - intros Hnf He Ha. unfold Services.RemoveNginxConfig.
    fold enabledPath availablePath.
    destruct (remove_if_exists_absent enabledPath w Hnf He) as (R1 & F1 & N1).
    rewrite (or_fail_step _ _ _ _ R1).
    rewrite <-F1 in Ha.
    destruct (remove_if_exists_absent availablePath _ N1 Ha) as (R2 & F2 & N2).
    rewrite (or_fail_step _ _ _ _ R2).
    set (w2 := (Services.remove_if_exists availablePath
                  (Services.remove_if_exists enabledPath w).2).2) in *.
    destruct (run_idle Services.cmd_nginx_test w2 eq_refl N2) as (R3 & F3 & N3).
    assert ((Services.TestNginxConfig w2).1 = None
            /\ fs (Services.TestNginxConfig w2).2 = fs w2
            /\ (forall n o, fault (Services.TestNginxConfig w2).2 n o = false))
      as (R3' & F3' & N3').
    { unfold Services.TestNginxConfig. by rewrite (or_fail_step _ _ _ _ R3). }
    rewrite (or_fail_step _ _ _ _ R3').
    set (w3 := (Services.TestNginxConfig w2).2) in *.
    destruct (run_idle Services.cmd_systemctl_reload w3 eq_refl N3') as (R4 & F4 & N4).
    assert ((Services.ReloadNginx w3).1 = None
            /\ fs (Services.ReloadNginx w3).2 = fs w3) as (R4' & F4').
    { unfold Services.ReloadNginx, mbind, M_bind, bind.
      destruct (Os.Run Services.cmd_systemctl_reload w3) as [r4 w4]. cbn in *.
      by subst r4. }
    rewrite (or_fail_step _ _ _ _ R4'). cbn [fst snd mret M_ret ret].
    split; [done|]. congruence.
Qed.

Lemma RemoveNginxConfig_removes_witness :
  let w := quiet_world {[ "/etc/nginx/sites-enabled/blog.conf"
                            := NLink "/etc/nginx/sites-available/blog.conf";
                          "/etc/nginx/sites-available/blog.conf" := NFile "server {}" ]} in
  let r := Services.RemoveNginxConfig "blog" w in
  r.1 = None
  /\ Os.Lstat r.2 "/etc/nginx/sites-enabled/blog.conf" = None
  /\ Os.Lstat r.2 "/etc/nginx/sites-available/blog.conf" = None.
Proof.
  intros w r.
  assert (r.1 = None) as H by (vm_compute; reflexivity).
  split; [exact H|]. exact (proj1 (RemoveNginxConfig_removes w "blog") H).
Defined.

(** X18. When [RemoveCertificate] returns no error, [CertificateExists]
    answers no for the site. *)
Theorem RemoveCertificate_then_absent (w : World) (siteName certDir : string) :
  (Ssl.RemoveCertificate siteName certDir w).1 = None ->
  Ssl.CertificateExists (Ssl.RemoveCertificate siteName certDir w).2 siteName certDir
  = false.
Proof.
  unfold Ssl.RemoveCertificate, Ssl.CertificateExists. intros H.
  destruct (or_fail_None _ _ _ _ H) as [H1 E1]. rewrite E1 in H |- *.
  destruct (or_fail_None _ _ _ _ H) as [H2 E2]. rewrite E2.
  unfold mret, M_ret, ret. cbn [snd].
  apply remove_if_exists_gone in H1.
  apply (remove_if_exists_keeps_absent _
           (Filepath.Join [certDir; siteName +:+ ".key"])) in H1.
  unfold Os.Stat. rewrite (follow_absent _ _ _ H1). cbn [mbind option_bind]. rewrite H1.
  by rewrite bool_decide_eq_false_2 by by intros [].
Qed.

Lemma RemoveCertificate_then_absent_witness :
  let w := quiet_world {[ "/home/u/.phppark/certificates/blog.crt" := NFile "CERT";
                          "/home/u/.phppark/certificates/blog.key" := NFile "KEY" ]} in
  Ssl.CertificateExists w "blog" "/home/u/.phppark/certificates" = true
  /\ Ssl.CertificateExists
       (Ssl.RemoveCertificate "blog" "/home/u/.phppark/certificates" w).2
       "blog" "/home/u/.phppark/certificates" = false.
Proof.
  intros w. split; [vm_compute; reflexivity|].
  apply RemoveCertificate_then_absent. vm_compute. reflexivity.
Defined.

(** ** The resolver configuration, line by line *)

Lemma sapp_cons c a b : String c a +:+ b = String c (a +:+ b).
Proof. reflexivity. Qed.

Lemma sapp_nil_l a : "" +:+ a = a.
Proof. reflexivity. Qed.

Lemma sapp_nil_r a : a +:+ "" = a.
Proof. induction a as [|c a IH]; [done|]. by rewrite sapp_cons, IH. Qed.

Lemma sapp_assoc a b c : (a +:+ b) +:+ c = a +:+ (b +:+ c).
Proof. induction a as [|x a IH]; [done|]. by rewrite !sapp_cons, IH. Qed.

(** A separator splits what is before it from what is after it. *)
Lemma Split_app a b sep :
  GoStrings.Split (a +:+ String sep b) sep
  = GoStrings.Split a sep ++ GoStrings.Split b sep.
Proof.
  induction a as [|c a IH].
  - rewrite sapp_nil_l. cbn [GoStrings.Split]. by rewrite Ascii.eqb_refl.
  - rewrite sapp_cons. cbn [GoStrings.Split]. rewrite IH.
    destruct (Ascii.eqb c sep); [done|].
    pose proof (Split_nonempty a sep). by destruct (GoStrings.Split a sep).
Qed.

(** Joining lines and splitting again gives the lines back. *)
Lemma Split_Join lines sep :
  lines <> [] -> Forall (absent sep) lines ->
  GoStrings.Split (GoStrings.Join lines (String sep "")) sep = lines.
Proof.
  intros Hne Hall. induction Hall as [|line lines Hline Hlines IH]; [done|].
  destruct lines as [|line' lines].
  - cbn [GoStrings.Join]. by apply Split_absent.
  - change (GoStrings.Join (line :: line' :: lines) (String sep ""))
      with (line +:+ String sep "" +:+ GoStrings.Join (line' :: lines) (String sep "")).
    change (String sep "" +:+ ?x) with (String sep x).
    rewrite Split_app, Split_absent by done. by rewrite IH.
Qed.

(** X19. [setDNSStubListener("")] writes back the lines that do not set the
    directive, in their order, and nothing else: no line of the new content
    sets the directive, and where some line is left, the lines of the new
    content are exactly the lines left. *)
Theorem stub_listener_removed (content : string) :
  let kept := filter (fun line => Dns.is_directive line = false)
                (GoStrings.Split content LF) in
  let result := Dns.stub_listener_content "" content in
  Forall (fun line => Dns.is_directive line = false) (GoStrings.Split result LF)
  /\ (kept <> [] -> GoStrings.Split result LF = kept)
  /\ (kept = [] -> result = "").
Proof.
  intros kept result.
  assert (result = GoStrings.Join kept nl) as -> by done.
  assert (kept <> [] -> GoStrings.Split (GoStrings.Join kept nl) LF = kept) as Hkept.
  { intros Hne. apply Split_Join; [done|].
    apply Forall_forall. intros line [_ Hline]%list_elem_of_filter.
    by apply (proj1 (Forall_forall _ _) (Split_pieces_absent content LF)). }
  split; [|split; [done|by intros ->]].
  destruct kept as [|line rest] eqn:E; [by repeat constructor|].
  rewrite Hkept by done. rewrite <-E. apply Forall_forall.
  by intros line' [? _]%list_elem_of_filter.
Qed.

Lemma stub_listener_removed_witness :
  GoStrings.Split
    (Dns.stub_listener_content ""
       ("[Resolve]" +:+ nl +:+ "DNS=1.1.1.1" +:+ nl +:+ " DNSStubListener=no" +:+ nl)) LF
  = ["[Resolve]"; "DNS=1.1.1.1"; ""].
Proof.
  refine (eq_trans (proj1 (proj2 (stub_listener_removed _)) _) _).
  - vm_compute. discriminate.
  - vm_compute. reflexivity.
Defined.

Lemma prefix_weaken p x post :
  String.prefix p x = true -> String.prefix p (x +:+ post) = true.
Proof.
  revert x. induction p as [|a p IH]; intros x.
  - intros _. by destruct (x +:+ post).
  - destruct x as [|b x]; [done|]. rewrite sapp_cons. cbn [String.prefix].
    destruct (ascii_dec a b); [apply IH|done].
Qed.

Lemma Contains_of_prefix s p : String.prefix p s = true -> GoStrings.Contains s p = true.
Proof. intros H. destruct s; cbn [GoStrings.Contains]; by rewrite H. Qed.

Lemma Contains_app_r pre t p :
  GoStrings.Contains t p = true -> GoStrings.Contains (pre +:+ t) p = true.
Proof.
  intros H. induction pre as [|c pre IH]; [done|].
  rewrite sapp_cons. cbn [GoStrings.Contains]. rewrite IH. apply orb_true_r.
Qed.

Lemma Contains_app_l t post p :
  GoStrings.Contains t p = true -> GoStrings.Contains (t +:+ post) p = true.
Proof.
  induction t as [|c t IH]; cbn [GoStrings.Contains].
  - rewrite orb_false_r. intros H. apply Contains_of_prefix.
    by apply (prefix_weaken p "" post).
  - intros [H|H]%orb_true_iff; rewrite sapp_cons; cbn [GoStrings.Contains].
    + pose proof (prefix_weaken p (String c t) post H) as Hp.
      rewrite sapp_cons in Hp. by rewrite Hp.
    + rewrite (IH H). apply orb_true_r.
Qed.

Lemma rev_app_sapp s acc : String.rev_app s acc = String.rev s +:+ acc.
Proof.
  revert acc. induction s as [|c s IH]; intros acc; [done|].
  unfold String.rev. cbn [String.rev_app].
  by rewrite (IH (String c acc)), (IH (String c "")), sapp_assoc.
Qed.

Lemma rev_sapp a b : String.rev (a +:+ b) = String.rev b +:+ String.rev a.
Proof.
  induction a as [|c a IH]; [by rewrite sapp_nil_r|].
  rewrite sapp_cons. unfold String.rev at 1 3. cbn [String.rev_app].
  by rewrite !rev_app_sapp, IH, sapp_assoc.
Qed.

Lemma rev_rev s : String.rev (String.rev s) = s.
Proof.
  induction s as [|c s IH]; [done|].
  unfold String.rev at 2. cbn [String.rev_app].
  by rewrite rev_app_sapp, rev_sapp, IH.
Qed.

(** Trimming only takes bytes away at the two ends. *)
Lemma trimLeft_suffix s : exists pre, s = pre +:+ GoStrings.trimLeft s.
Proof.
  assert (forall n s, String.length s <= n ->
                      exists pre, s = pre +:+ GoStrings.trimLeft s) as H;
    [|by apply (H (String.length s))].
  clear s. induction n as [|n IH]; intros s Hlen.
  { destruct s; [by exists ""|cbn in Hlen; lia]. }
  destruct s as [|a s1]; [by exists ""|]. cbn [GoStrings.trimLeft].
  cbn [String.length] in Hlen.
  destruct (GoStrings.space1 a).
  { destruct (IH s1 ltac:(lia)) as [pre Hpre]. exists (String a pre).
    by rewrite sapp_cons, <-Hpre. }
  destruct s1 as [|b s2]; [by exists ""|]. cbn [String.length] in Hlen.
  destruct (GoStrings.space2 a b).
  { destruct (IH s2 ltac:(lia)) as [pre Hpre]. exists (String a (String b pre)).
    by rewrite !sapp_cons, <-Hpre. }
  destruct s2 as [|c s3]; [by exists ""|]. cbn [String.length] in Hlen.
  destruct (GoStrings.space3 a b c); [|by exists ""].
  destruct (IH s3 ltac:(lia)) as [pre Hpre].
  exists (String a (String b (String c pre))). by rewrite !sapp_cons, <-Hpre.
Qed.

Lemma trimRightRev_suffix r : exists pre, r = pre +:+ GoStrings.trimRightRev r.
Proof.
  assert (forall n r, String.length r <= n ->
                      exists pre, r = pre +:+ GoStrings.trimRightRev r) as H;
    [|by apply (H (String.length r))].
  clear r. induction n as [|n IH]; intros r Hlen.
  { destruct r; [by exists ""|cbn in Hlen; lia]. }
  destruct r as [|c r1]; [by exists ""|]. cbn [GoStrings.trimRightRev].
  cbn [String.length] in Hlen.
  destruct (GoStrings.space1 c).
  { destruct (IH r1 ltac:(lia)) as [pre Hpre]. exists (String c pre).
    by rewrite sapp_cons, <-Hpre. }
  destruct r1 as [|b r2]; [by exists ""|]. cbn [String.length] in Hlen.
  destruct (GoStrings.space2 b c).
  { destruct (IH r2 ltac:(lia)) as [pre Hpre]. exists (String c (String b pre)).
    by rewrite !sapp_cons, <-Hpre. }
  destruct r2 as [|a r3]; [by exists ""|]. cbn [String.length] in Hlen.
  destruct (GoStrings.space3 a b c); [|by exists ""].
  destruct (IH r3 ltac:(lia)) as [pre Hpre].
  exists (String c (String b (String a pre))). by rewrite !sapp_cons, <-Hpre.
Qed.

Lemma TrimSpace_inside s :
  exists pre post, s = pre +:+ GoStrings.TrimSpace s +:+ post.
Proof.
  unfold GoStrings.TrimSpace.
  destruct (trimLeft_suffix s) as [pre Hpre].
  destruct (trimRightRev_suffix (String.rev (GoStrings.trimLeft s))) as [post Hpost].
  exists pre, (String.rev post).
  rewrite <-rev_sapp, <-Hpost, rev_rev. exact Hpre.
Qed.

Lemma Contains_trimmed_prefix line p :
  GoStrings.HasPrefix (GoStrings.TrimSpace line) p = true ->
  GoStrings.Contains line p = true.
Proof.
  unfold GoStrings.HasPrefix. intros H.
  destruct (TrimSpace_inside line) as (pre & post & E). rewrite E.
  apply Contains_app_r, Contains_of_prefix. by apply prefix_weaken.
Qed.

Lemma Split_piece_inside c sep line :
  line ∈ GoStrings.Split c sep -> exists pre post, c = pre +:+ line +:+ post.
Proof.
  revert line. induction c as [|x c IH]; intros line; cbn [GoStrings.Split].
  - intros ->%list_elem_of_singleton. by exists "", "".
  - destruct (Ascii.eqb x sep).
    + intros [->|Hin]%elem_of_cons; [by exists "", (String x c)|].
      destruct (IH line Hin) as (pre & post & ->). by exists (String x pre), post.
    + pose proof (Split_nonempty c sep).
      destruct (GoStrings.Split c sep) as [|piece pieces] eqn:E; [done|].
      intros [->|Hin]%elem_of_cons.
      * destruct (IH piece ltac:(by left)) as (pre & post & Hc).
        (* the first piece starts the string *)
        assert (exists post', c = piece +:+ post') as [post' ->].
        { clear -E. revert piece pieces E. induction c as [|y c IHc]; intros piece pieces;
            cbn [GoStrings.Split].
          - intros [= <- <-]. by exists "".
          - destruct (Ascii.eqb y sep); [intros [= <- <-]; by eexists|].
            pose proof (Split_nonempty c sep).
            destruct (GoStrings.Split c sep) as [|p ps]; [done|].
            intros [= <- <-]. destruct (IHc p ps eq_refl) as [post' ->].
            by exists post'. }
        by exists "", post'.
      * destruct (IH line ltac:(by right)) as (pre & post & ->).
        by exists (String x pre), post.
Qed.

Lemma absent_sapp sep a b : absent sep a -> absent sep b -> absent sep (a +:+ b).
Proof.
  intros Ha Hb. induction a as [|c a IH]; [done|].
  destruct Ha as [Hc Ha]. rewrite sapp_cons. split; [done|by apply IH].
Qed.

(** X20. Where some line of the resolver configuration sets the directive
    (after white space), [setDNSStubListener] with a setting replaces each
    such line by the new directive and leaves every other line as and where it
    is. *)
Theorem stub_listener_replaced (value content : string) :
  value <> "" -> absent LF value ->
  (exists line, line ∈ GoStrings.Split content LF /\ Dns.is_directive line = true) ->
  GoStrings.Split (Dns.stub_listener_content value content) LF
  = map (fun line => if Dns.is_directive line then "DNSStubListener=" +:+ value else line)
      (GoStrings.Split content LF).
Proof.
  intros Hvalue Hfree (line & Hline & Hdir).
  assert (GoStrings.Contains content "DNSStubListener=" = true) as Hcontains.
  { destruct (Split_piece_inside _ _ _ Hline) as (pre & post & ->).
    by apply Contains_app_r, Contains_app_l, Contains_trimmed_prefix. }
  unfold Dns.stub_listener_content. rewrite decide_False, Hcontains by done.
  apply Split_Join.
  - pose proof (Split_nonempty content LF). by destruct (GoStrings.Split content LF).
  - apply Forall_forall. intros l (l0 & -> & Hl0)%list_elem_of_fmap.
    destruct (Dns.is_directive l0).
    + apply absent_sapp; [|done]. by vm_compute.
    + by apply (proj1 (Forall_forall _ _) (Split_pieces_absent content LF)).
Qed.

Lemma stub_listener_replaced_witness :
  GoStrings.Split
    (Dns.stub_listener_content "no"
       ("[Resolve]" +:+ nl +:+ "DNS=1.1.1.1" +:+ nl +:+ "  DNSStubListener=udp" +:+ nl)) LF
  = ["[Resolve]"; "DNS=1.1.1.1"; "DNSStubListener=no"; ""].
Proof.
  refine (eq_trans (stub_listener_replaced "no" _ _ _ _) _).
  - discriminate.
  - vm_compute. by repeat split.
  - exists "  DNSStubListener=udp". split; [|vm_compute; reflexivity].
    vm_compute. set_solver.
  - vm_compute. reflexivity.
Defined.

Lemma prefix_drop old s :
  String.prefix old s = true -> s = old +:+ GoStrings.drop (String.length old) s.
Proof.
  revert s. induction old as [|a old IH]; intros s; [done|].
  destruct s as [|b s]; [done|]. cbn [String.prefix String.length GoStrings.drop].
  destruct (ascii_dec a b) as [->|]; [|done]. intros H.
  by rewrite sapp_cons, <-(IH s H).
Qed.

(** [Replace1] rewrites the leftmost occurrence and nothing else. *)
Lemma Replace1_spec s old new :
  GoStrings.Contains s old = true ->
  exists pre post,
    s = pre +:+ old +:+ post
    /\ GoStrings.Replace1 s old new = pre +:+ new +:+ post
    /\ (forall pre1 pre2, pre = pre1 +:+ pre2 -> pre2 <> "" ->
          String.prefix old (pre2 +:+ old +:+ post) = false).
Proof.
  induction s as [|c s IH]; cbn [GoStrings.Contains GoStrings.Replace1].
  - rewrite orb_false_r. intros H. rewrite H. exists "", (GoStrings.drop (String.length old) "").
    split; [by apply prefix_drop|]. split; [done|].
    intros [|??] [|??]; by rewrite ?sapp_cons.
  - destruct (String.prefix old (String c s)) eqn:Hp.
    + intros _. exists "", (GoStrings.drop (String.length old) (String c s)).
      split; [by apply prefix_drop|]. split; [done|].
      intros [|??] [|??]; by rewrite ?sapp_cons.
    + cbn [orb]. intros H. destruct (IH H) as (pre & post & -> & -> & Hleft).
      exists (String c pre), post. split; [done|]. split; [done|].
      intros [|x pre1] pre2; rewrite ?sapp_cons, ?sapp_nil_l.
      * intros <- _. by rewrite sapp_cons.
      * intros [= <- E'] Hne. by apply (Hleft pre1 pre2).
Qed.

(** X21. Where the resolver configuration does not mention the directive
    but has a [[Resolve]] header, [setDNSStubListener] with a setting puts the
    directive on a new line right behind the first header and changes nothing
    else: what stood before the header and what followed it are kept. *)
Theorem stub_listener_inserted (value content : string) :
  value <> "" ->
  GoStrings.Contains content "DNSStubListener=" = false ->
  GoStrings.Contains content "[Resolve]" = true ->
  exists pre post,
    content = pre +:+ "[Resolve]" +:+ post
    /\ (forall pre1 pre2, pre = pre1 +:+ pre2 -> pre2 <> "" ->
          String.prefix "[Resolve]" (pre2 +:+ "[Resolve]" +:+ post) = false)
    /\ Dns.stub_listener_content value content
       = pre +:+ "[Resolve]" +:+ nl +:+ "DNSStubListener=" +:+ value +:+ post
    /\ GoStrings.Split (Dns.stub_listener_content value content) LF
       = GoStrings.Split (pre +:+ "[Resolve]") LF
         ++ GoStrings.Split ("DNSStubListener=" +:+ value +:+ post) LF.
Proof.
  intros Hvalue Hnone Hheader.
  unfold Dns.stub_listener_content. rewrite decide_False, Hnone, Hheader by done.
  destruct (Replace1_spec content "[Resolve]"
              ("[Resolve]" +:+ nl +:+ "DNSStubListener=" +:+ value) Hheader)
    as (pre & post & E & -> & Hleft).
  exists pre, post. split; [done|]. split; [done|].
  assert ((pre +:+ ("[Resolve]" +:+ nl +:+ "DNSStubListener=" +:+ value) +:+ post)
          = (pre +:+ "[Resolve]") +:+ String LF (("DNSStubListener=" +:+ value) +:+ post))
    as Hshape.
  { rewrite !sapp_assoc. f_equal. }
  split.
  - rewrite Hshape, !sapp_assoc. f_equal.
  - rewrite Hshape, Split_app. by rewrite !sapp_assoc.
Qed.

Lemma stub_listener_inserted_witness :
  let content := "# local" +:+ nl +:+ "[Resolve]" +:+ nl +:+ "DNS=1.1.1.1" in
  exists pre post,
    content = pre +:+ "[Resolve]" +:+ post
    /\ Dns.stub_listener_content "no" content
       = pre +:+ "[Resolve]" +:+ nl +:+ "DNSStubListener=" +:+ "no" +:+ post.
Proof.
  intros content.
  destruct (stub_listener_inserted "no" content)
    as (pre & post & E & _ & R & _); [discriminate|vm_compute; reflexivity..|].
  by exists pre, post.
Defined.

Lemma nl_sapp x : nl +:+ x = String LF x.
Proof. reflexivity. Qed.

(** X22. Where the resolver configuration mentions neither the directive
    nor a [[Resolve]] header, [setDNSStubListener] with a setting keeps every
    line and appends an empty line, the header and the directive; a last line
    without a line end is closed first. *)
Theorem stub_listener_appended (value content : string) :
  value <> "" -> absent LF value ->
  GoStrings.Contains content "DNSStubListener=" = false ->
  GoStrings.Contains content "[Resolve]" = false ->
  GoStrings.Split (Dns.stub_listener_content value content) LF
  = GoStrings.Split content LF
    ++ (if bool_decide (content <> "") && negb (GoStrings.HasSuffix content nl)
        then [""] else [])
    ++ ["[Resolve]"; "DNSStubListener=" +:+ value; ""].
Proof.
  intros Hvalue Hfree Hnone Hheader.
  unfold Dns.stub_listener_content. rewrite decide_False, Hnone, Hheader by done.
  assert (forall c, GoStrings.Split
                      (c +:+ nl +:+ "[Resolve]" +:+ nl +:+ ("DNSStubListener=" +:+ value) +:+ nl)
                      LF
                    = GoStrings.Split c LF ++ ["[Resolve]"; "DNSStubListener=" +:+ value; ""])
    as Htail.
  { intros c.
    change (c +:+ nl +:+ "[Resolve]" +:+ nl +:+ ("DNSStubListener=" +:+ value) +:+ nl)
      with (c +:+ String LF ("[Resolve]" +:+ String LF
                               (("DNSStubListener=" +:+ value) +:+ String LF ""))).
    rewrite !Split_app.
    rewrite (Split_absent "[Resolve]") by by vm_compute.
    rewrite (Split_absent ("DNSStubListener=" +:+ value)); [done|].
    apply absent_sapp; [by vm_compute|done]. }
  destruct (bool_decide (content <> "") && negb (GoStrings.HasSuffix content nl)).
  - rewrite sapp_assoc, (nl_sapp (nl +:+ _)), Split_app. f_equal.
    apply (Htail "").
  - apply Htail.
Qed.

Lemma stub_listener_appended_witness :
  GoStrings.Split (Dns.stub_listener_content "no" "# empty") LF
  = ["# empty"; ""; "[Resolve]"; "DNSStubListener=no"; ""].
Proof.
  refine (eq_trans (stub_listener_appended "no" "# empty" _ _ _ _) _).
  - discriminate.
  - vm_compute. by repeat split.
  - vm_compute. reflexivity.
  - vm_compute. reflexivity.
  - vm_compute. reflexivity.
Defined.

(** ** The base-domain fragment and the marker of the stub state *)

(** Putting something that is not a link where no link is does not change
    any walk along links. *)
Lemma follow_insert_other n f q x p :
  Os.IsSymlink x = false -> (forall t, f !! q <> Some (NLink t)) ->
  Os.follow n (<[q := x]> f) p = Os.follow n f p.
Proof.
  intros Hx Hq. revert p. induction n as [|n IH]; intros p; cbn [Os.follow].
  - destruct (decide (q = p)) as [->|Hne].
    + rewrite lookup_insert_eq.
      destruct (f !! p) as [[| |t]|] eqn:E;
        first [by destruct x|by destruct (Hq t)].
    + by rewrite lookup_insert_ne.
  - destruct (decide (q = p)) as [->|Hne].
    + rewrite lookup_insert_eq.
      destruct (f !! p) as [[| |t]|] eqn:E;
        first [by destruct x|by destruct (Hq t)].
    + rewrite lookup_insert_ne by done. by destruct (f !! p) as [[| |t]|].
Qed.

(** A successful write through a path keeps whatever some path leads to,
    and leaves a file where the written path leads. *)
Lemma write_through_inserts p c f f' :
  Os.write_through p c f = inr f' ->
  exists q, Os.follow Os.hops f p = Some q /\ f' = <[q := NFile c]> f
            /\ forall t, f !! q <> Some (NLink t).
Proof.
  unfold Os.write_through. destruct (Os.follow Os.hops f p) as [q|] eqn:Hq; [|done].
  intros H. exists q. split; [done|]. split.
  - by destruct (f !! q) as [[| |?]|]; simplify_eq.
  - intros t. by eapply follow_not_link.
Qed.

Lemma write_through_keeps_stat p c f (w w' : World) x :
  fs w = f -> Os.write_through p c f = inr (fs w') ->
  is_Some (Os.Stat w x) -> is_Some (Os.Stat w' x).
Proof.
  intros <- (q & _ & E & Hq)%write_through_inserts. unfold Os.Stat.
  rewrite E, follow_insert_other by done.
  destruct (Os.follow Os.hops (fs w) x) as [q0|]; cbn; [|by intros []].
  destruct (decide (q = q0)) as [->|Hne];
    [by rewrite lookup_insert_eq|by rewrite lookup_insert_ne].
Qed.

Lemma stat_after_write_through p c f (w' : World) :
  Os.write_through p c f = inr (fs w') -> Os.Stat w' p = Some (NFile c).
Proof.
  intros (q & Hfollow & E & Hq)%write_through_inserts. unfold Os.Stat.
  rewrite E, follow_insert_other, Hfollow by done. cbn. apply lookup_insert_eq.
Qed.

(** A child process that leaves the file tree alone leaves it alone. *)
Lemma run_idle_fs argv w :
  Os.command_effect argv "" = inr -> fs (Os.Run argv w).2 = fs w.
Proof.
  intros Hid. unfold Os.Run, Os.RunStdin, Os.attempt. rewrite Hid.
  by destruct (fault w _ _).
Qed.

(** X23. [setupLinuxDNS] without [dnsmasq] on the search path returns an
    error and attempts nothing; when it returns no error, [checkLinuxDNS]
    finds the domain configured. *)
Theorem setupLinuxDNS_then_check (w : World) (domain : string) :
  (lookPath w "dnsmasq" = None ->
   (Dns.setupLinuxDNS domain w).1 <> None /\ (Dns.setupLinuxDNS domain w).2 = w)
  /\ ((Dns.setupLinuxDNS domain w).1 = None ->
      Dns.checkLinuxDNS (Dns.setupLinuxDNS domain w).2 domain = true).
Proof.
  unfold Dns.setupLinuxDNS, mbind, M_bind, bind, query. split.
  - intros ->. by cbn.
  - destruct (lookPath w "dnsmasq"); [|done]. intros H.
    destruct (or_fail_None _ _ _ _ H) as [H1 E1]. rewrite E1 in H |- *.
    destruct (or_fail_None _ _ _ _ H) as [H2 E2]. rewrite E2.
    unfold mret, M_ret, ret. cbn [snd].
    unfold Dns.checkLinuxDNS, Os.Stat.
    rewrite (run_idle_fs ["sudo"; "systemctl"; "restart"; "dnsmasq"] _ eq_refl).
    unfold Os.RunStdin in *. apply attempt_None in H1.
    apply stat_after_write_through in H1.
    unfold Os.Stat in H1. rewrite H1. by apply bool_decide_eq_true_2.
Qed.

Lemma setupLinuxDNS_then_check_witness :
  let w := {| fs := ∅; trace := []; fault := fun _ _ => false;
              procOut := fun _ => None;
              lookPath := fun _ => Some "/usr/sbin/dnsmasq";
              getenv := fun _ => ""; GOOS := "linux";
              sitesDoc := None; configDoc := None; pathsRes := None |} in
  Dns.checkLinuxDNS w "test" = false
  /\ Dns.checkLinuxDNS (Dns.setupLinuxDNS "test" w).2 "test" = true
  /\ (Dns.setupLinuxDNS "test" (quiet_world ∅)).2 = quiet_world ∅.
Proof.
  intros w. split; [vm_compute; reflexivity|]. split.
  - apply setupLinuxDNS_then_check. vm_compute. reflexivity.
  - apply (proj1 (setupLinuxDNS_then_check (quiet_world ∅) "test")). reflexivity.
Defined.

(** X24. [removeLinuxDNS] returns an error exactly when removing the
    fragment of the domain fails: neither the revert of the stub listener nor
    the restart of the resolver can make it fail.  When it returns no error
    and nothing was at the marker's path, [checkLinuxDNS] finds the domain
    not configured. *)
Theorem removeLinuxDNS_best_effort (w : World) (domain : string) :
  ((Dns.removeLinuxDNS domain w).1 = None
   <-> (Os.Run ["sudo"; "rm"; "-f"; Dns.domainConf domain] w).1 = None)
  /\ ((Dns.removeLinuxDNS domain w).1 = None ->
      Os.Lstat w Dns.phpParkDnsmasqConf = None ->
      Dns.checkLinuxDNS (Dns.removeLinuxDNS domain w).2 domain = false).
Proof.
  unfold Dns.removeLinuxDNS, or_fail, mbind, M_bind, bind, query, Os.Lstat.
  pose proof (attempt_result (OpRun ["sudo"; "rm"; "-f"; Dns.domainConf domain] "")
                (Os.command_effect ["sudo"; "rm"; "-f"; Dns.domainConf domain] "") w) as R.
  unfold Os.Run, Os.RunStdin in *.
  destruct (Os.attempt (OpRun ["sudo"; "rm"; "-f"; Dns.domainConf domain] "")
              (Os.command_effect ["sudo"; "rm"; "-f"; Dns.domainConf domain] "") w)
    as [[e|] w1]; cbn [fst snd] in *.
  { split; [done|]. done. }
  assert (fs w1 = delete (Dns.domainConf domain) (fs w)) as Hfs.
  { lazy beta iota delta [Os.command_effect] in R.
    destruct (fs w !! Dns.domainConf domain) as [[| |?]|]; congruence. }
  split.
  - destruct (Dns.IsSystemdResolvedStubDisabled w1).
    + destruct (Dns.RevertSystemdResolvedStub w1) as [r2 w2].
      by destruct (Os.attempt _ _ w2).
    + cbn. by destruct (Os.attempt _ _ w1).
  - intros _ Hmarker.
    assert (Dns.IsSystemdResolvedStubDisabled w1 = false) as ->.
    { unfold Dns.IsSystemdResolvedStubDisabled, Os.Stat.
      assert (fs w1 !! Dns.phpParkDnsmasqConf = None) as Hm.
      { rewrite Hfs. destruct (decide (Dns.domainConf domain = Dns.phpParkDnsmasqConf))
          as [->|Hne]; [apply lookup_delete_eq|by rewrite lookup_delete_ne]. }
      rewrite (follow_absent _ _ _ Hm). cbn [mbind option_bind]. rewrite Hm.
      by rewrite bool_decide_eq_false_2 by by intros []. }
    pose proof (run_idle_fs ["sudo"; "systemctl"; "restart"; "dnsmasq"] w1 eq_refl)
      as Hid.
    unfold Os.Run, Os.RunStdin in Hid.
    cbv beta iota delta [mret M_ret ret].
    destruct (Os.attempt _ _ w1) as [r3 w3]. cbn [snd] in Hid |- *.
    unfold Dns.checkLinuxDNS, Os.Stat. rewrite Hid.
    assert (fs w1 !! Dns.domainConf domain = None) as Hd
      by (rewrite Hfs; apply lookup_delete_eq).
    rewrite (follow_absent _ _ _ Hd). cbn [mbind option_bind]. rewrite Hd.
    by rewrite bool_decide_eq_false_2 by by intros [].
Qed.

Lemma removeLinuxDNS_best_effort_witness :
  let w := quiet_world {[ "/etc/dnsmasq.d/test" := NFile "address=/.test/127.0.0.1" ]} in
  Dns.checkLinuxDNS w "test" = true
  /\ (Dns.removeLinuxDNS "test" w).1 = None
  /\ Dns.checkLinuxDNS (Dns.removeLinuxDNS "test" w).2 "test" = false.
Proof.
  intros w. split; [vm_compute; reflexivity|].
  assert ((Dns.removeLinuxDNS "test" w).1 = None) as H by (vm_compute; reflexivity).
  split; [exact H|].
  apply (proj2 (removeLinuxDNS_best_effort w "test") H). vm_compute. reflexivity.
Defined.

Lemma bind_query {A B} (f : World -> A) (k : A -> M B) w :
  (query f ≫= k) w = k (f w) w.
Proof. reflexivity. Qed.

Lemma bind_step {A B} (m : M A) (k : A -> M B) w :
  (m ≫= k) w = k (m w).1 (m w).2.
Proof. unfold mbind, M_bind, bind. by destruct (m w). Qed.

(** X25. When [DisableSystemdResolvedStub] returns no error, the marker
    [/etc/dnsmasq.d/phppark.conf] is there afterwards:
    [IsSystemdResolvedStubDisabled] answers yes, also when the last step
    wrote through [/etc/resolv.conf]. *)
Theorem DisableSystemdResolvedStub_leaves_marker (w : World) :
  (Dns.DisableSystemdResolvedStub w).1 = None ->
  Dns.IsSystemdResolvedStubDisabled (Dns.DisableSystemdResolvedStub w).2 = true.
Proof.
  unfold Dns.DisableSystemdResolvedStub. intros H.
  destruct (or_fail_None _ _ _ _ H) as [_ E1]. rewrite E1 in H |- *. clear E1.
  set (w1 := (Dns.setDNSStubListener "no" w).2) in *.
  destruct (or_fail_None _ _ _ _ H) as [_ E2]. rewrite E2 in H |- *. clear E2.
  set (w2 := (Os.Run Dns.cmd_restart_resolved w1).2) in *.
  rewrite bind_query in H |- *.
  destruct (or_fail_None _ _ _ _ H) as [H3 E3]. rewrite E3 in H |- *. clear E3.
  set (w3 := (Os.RunStdin ["sudo"; "tee"; Dns.phpParkDnsmasqConf]
                (Dns.buildDnsmasqUpstreamConf w2) w2).2) in *.
  assert (is_Some (Os.Stat w3 Dns.phpParkDnsmasqConf)) as Hm.
  { unfold Os.RunStdin in H3. apply attempt_None in H3.
    apply stat_after_write_through in H3. subst w3. unfold Os.RunStdin.
    by rewrite H3. }
  assert (Dns.IsSystemdResolvedStubDisabled w3 = true) as Hyes
    by by apply bool_decide_eq_true_2.
  rewrite bind_query in H |- *.
  destruct (Os.Lstat w3 Dns.etcResolvConf) as [info|]; [|done].
  destruct (Os.IsSymlink info); [|done].
  rewrite bind_query in H |- *.
  destruct (GoStrings.Contains (Os.Readlink w3 Dns.etcResolvConf) "systemd"); [|done].
  destruct (or_fail_None _ _ _ _ H) as [H4 E4]. rewrite E4. clear E4.
  unfold Os.RunStdin in H4. apply attempt_None in H4.
  apply bool_decide_eq_true_2.
  by apply (write_through_keeps_stat _ _ _ w3 _ _ eq_refl H4).
Qed.

Lemma DisableSystemdResolvedStub_leaves_marker_witness :
  Dns.IsSystemdResolvedStubDisabled world_stub = false
  /\ Dns.IsSystemdResolvedStubDisabled (Dns.DisableSystemdResolvedStub world_stub).2
     = true.
Proof.
  split; [vm_compute; reflexivity|].
  apply DisableSystemdResolvedStub_leaves_marker. vm_compute. reflexivity.
Defined.

(** Writing with [tee] never fails an operation from outside and never puts
    a directory anywhere. *)
Lemma tee_marker_inv p c :
  preserves marker_inv (Os.RunStdin ["sudo"; "tee"; p] c).
Proof.
  intros w [Hnf Hm]. unfold Os.RunStdin. split.
  - intros n o. by rewrite attempt_fault.
  - pose proof (attempt_result (OpRun ["sudo"; "tee"; p] c)
                  (Os.command_effect ["sudo"; "tee"; p] c) w) as R.
    destruct (Os.attempt _ _ w).1; [by rewrite R|].
    apply write_through_inserts in R. destruct R as (q & _ & -> & _).
    destruct (decide (q = Dns.phpParkDnsmasqConf)) as [->|Hne];
      [by rewrite lookup_insert_eq|by rewrite lookup_insert_ne].
Qed.

Lemma setDNSStubListener_marker_inv value :
  preserves marker_inv (Dns.setDNSStubListener value).
Proof.
  unfold Dns.setDNSStubListener.
  apply preserves_bind; [apply preserves_query|]. intros data.
  destruct data as [err|data].
  - destruct (IsNotExist err); [|apply preserves_ret].
    apply preserves_or_fail; [apply tee_marker_inv|apply preserves_ret].
  - apply preserves_or_fail; [apply tee_marker_inv|apply preserves_ret].
Qed.

(** X26. When nothing fails from outside and the marker
    [/etc/dnsmasq.d/phppark.conf] is not a directory, a
    [RevertSystemdResolvedStub] that returns no error has removed the
    marker: [IsSystemdResolvedStubDisabled] answers no afterwards. *)
Theorem RevertSystemdResolvedStub_clears_marker (w : World) :
  (forall n o, fault w n o = false) ->
  Os.Lstat w Dns.phpParkDnsmasqConf <> Some NDir ->
  (Dns.RevertSystemdResolvedStub w).1 = None ->
  Dns.IsSystemdResolvedStubDisabled (Dns.RevertSystemdResolvedStub w).2 = false.
Proof.
  intros Hnf Hm H. unfold Dns.RevertSystemdResolvedStub in *.
  pose proof (setDNSStubListener_marker_inv "" w (conj Hnf Hm)) as [Hnf1 Hm1].
  destruct (or_fail_None _ _ _ _ H) as [_ E1]. rewrite E1 in H |- *. clear E1.
  set (w1 := (Dns.setDNSStubListener "" w).2) in *.
  destruct (or_fail_None _ _ _ _ H) as [_ E2]. rewrite E2 in H |- *. clear E2.
  destruct (run_idle Dns.cmd_restart_resolved w1 eq_refl Hnf1) as (_ & F2 & Hnf2).
  set (w2 := (Os.Run Dns.cmd_restart_resolved w1).2) in *.
  rewrite <-F2 in Hm1. clear H.
  rewrite bind_step.
  assert (Os.command_effect ["sudo"; "rm"; "-f"; Dns.phpParkDnsmasqConf] "" (fs w2)
          = inr (delete Dns.phpParkDnsmasqConf (fs w2))) as Hrm.
  { lazy beta iota delta [Os.command_effect].
    by destruct (fs w2 !! Dns.phpParkDnsmasqConf) as [[| |?]|]. }
  destruct (attempt_effect (OpRun ["sudo"; "rm"; "-f"; Dns.phpParkDnsmasqConf] "")
              _ w2 _ Hnf2 Hrm) as (_ & F3 & _).
  change (Os.attempt (OpRun ["sudo"; "rm"; "-f"; Dns.phpParkDnsmasqConf] "")
            (Os.command_effect ["sudo"; "rm"; "-f"; Dns.phpParkDnsmasqConf] ""))
    with (Os.Run ["sudo"; "rm"; "-f"; Dns.phpParkDnsmasqConf]) in F3.
  set (w3 := (Os.Run ["sudo"; "rm"; "-f"; Dns.phpParkDnsmasqConf] w2).2) in *.
  assert (fs w3 !! Dns.phpParkDnsmasqConf = None) as Hgone
    by (rewrite F3; apply lookup_delete_eq).
  assert (preserves (fun w => fs w !! Dns.phpParkDnsmasqConf = None)
            (Os.Run ["sudo"; "rm"; "-f"; Dns.etcResolvConf] ≫= fun _ =>
             or_fail (Os.Run ["sudo"; "ln"; "-sf"; Dns.resolvedStubSymlink;
                              Dns.etcResolvConf])
               "failed to restore /etc/resolv.conf" (mret None))) as Hkeep.
  { apply preserves_bind; [|intros _; apply preserves_or_fail; [|apply preserves_ret]].
    - apply attempt_keeps_absent. intros f f'.
      lazy beta iota delta [Os.command_effect]. intros E Hq.
      assert (f' = delete Dns.etcResolvConf f) as ->
        by (destruct (f !! Dns.etcResolvConf) as [[| |?]|]; congruence).
      by rewrite lookup_delete_ne.
    - apply attempt_keeps_absent. intros f f'.
      lazy beta iota delta [Os.command_effect]. intros E Hq.
      destruct (Os.follow Os.hops f Dns.etcResolvConf ≫= (f !!.)) as [[| |?]|];
        try (injection E as <-; by rewrite lookup_insert_ne).
      cbv zeta in E.
      destruct (f !! Filepath.Join [Dns.etcResolvConf;
                                    Filepath.Base Dns.resolvedStubSymlink])
        as [[| |?]|]; try done;
        injection E as <-; rewrite lookup_insert_ne; try done;
        intros E'; vm_compute in E'; discriminate. }
  specialize (Hkeep w3 Hgone). cbv beta in Hkeep.
  unfold Dns.IsSystemdResolvedStubDisabled, Os.Stat.
  rewrite (follow_absent _ _ _ Hkeep). cbn [mbind option_bind]. rewrite Hkeep.
  by rewrite bool_decide_eq_false_2 by by intros [].
Qed.

Lemma RevertSystemdResolvedStub_clears_marker_witness :
  let w := (Dns.DisableSystemdResolvedStub world_stub).2 in
  Dns.IsSystemdResolvedStubDisabled w = true
  /\ Dns.IsSystemdResolvedStubDisabled (Dns.RevertSystemdResolvedStub w).2 = false.
Proof.
  intros w. split; [vm_compute; reflexivity|].
  apply RevertSystemdResolvedStub_clears_marker.
  - intros n o. reflexivity.
  - vm_compute. discriminate.
  - vm_compute. reflexivity.
Defined.

Lemma RemoveNginxConfig_keeps_absent q siteName :
  preserves (fun w => fs w !! q = None) (Services.RemoveNginxConfig siteName).
Proof.
  unfold Services.RemoveNginxConfig.
  apply preserves_or_fail; [apply remove_if_exists_keeps_absent|].
  apply preserves_or_fail; [apply remove_if_exists_keeps_absent|].
  apply validate_reload_keeps_absent.
Qed.

(** X27. When [runUnlink] returns no error, the rendered configuration of
    the site is gone from the configuration directory, whatever
    [RemoveNginxConfig] reported, and the last thing done is the successful
    save of the loaded registry after [RemoveSite]. *)
Theorem runUnlink_removes_config (w : World) (siteName : string)
    (sites : Config.SiteRegistry) (paths : Config.Paths) :
  ConfigStore.LoadSites w = inr sites ->
  ConfigStore.GetPaths w = inr paths ->
  (Main.runUnlink siteName w).1 = None ->
  Os.Lstat (Main.runUnlink siteName w).2
    (Filepath.Join [Config.Nginx paths; siteName +:+ ".conf"]) = None
  /\ last (trace (Main.runUnlink siteName w).2)
     = Some (OpSaveSites (Config.RemoveSite sites siteName).1, true).
Proof.
  unfold Main.runUnlink. intros HL HP. rewrite bind_query, HL.
  destruct (Config.FindSite sites siteName) as [site|]; [|done].
  rewrite bind_query. destruct (ConfigStore.LoadConfig w) as [err|cfg]; [done|].
  rewrite bind_query, HP. cbv zeta.
  set (configPath := Filepath.Join [Config.Nginx paths; siteName +:+ ".conf"]).
  intros H.
  destruct (or_fail_None _ _ _ _ H) as [H1 E1]. rewrite E1 in H |- *. clear E1.
  apply remove_if_exists_gone in H1.
  set (w1 := (Services.remove_if_exists configPath w).2) in *.
  rewrite bind_query in H |- *. rewrite bind_step in H |- *.
  assert (fs ((if decide (GOOS w1 = "linux")
               then Services.RemoveNginxConfig siteName
               else mret None) w1).2 !! configPath = None) as H2.
  { destruct (decide (GOOS w1 = "linux")); [|done].
    by apply RemoveNginxConfig_keeps_absent. }
  set (w2 := ((if decide (GOOS w1 = "linux")
               then Services.RemoveNginxConfig siteName
               else mret None) w1).2) in *.
  destruct (or_fail_None _ _ _ _ H) as [H3 E3]. rewrite E3. clear E3 H.
  unfold mret, M_ret, ret. cbn [snd].
  unfold ConfigStore.SaveSites in *.
  destruct (fault w2 _ _); [done|]. cbn. split; [done|]. apply last_snoc.
Qed.

Lemma runUnlink_removes_config_witness :
  Os.Lstat world_linked "/home/u/.phppark/nginx/blog.conf" = Some (NFile "server {}")
  /\ Os.Lstat (Main.runUnlink "blog" world_linked).2
       (Filepath.Join [Config.Nginx paths_u; "blog" +:+ ".conf"]) = None.
Proof.
  split; [vm_compute; reflexivity|].
  apply (runUnlink_removes_config world_linked "blog" two_sites paths_u);
    vm_compute; reflexivity.
Defined.
